(** * Listen Me: suggestion resolution, word logs and playback scheduling

    A shallow embedding of the application component ([src/App.tsx]), the
    live-session client ([GeminiService]) and the speech-recognition wrapper
    ([SpeechService]).

    Conventions of the embedding:
    - a React state cell is a field of [App.State]; [setX v] writes the field
      (a functional update [setX (prev => f prev)] applies [f] to it);
    - a [useRef] cell is a field of its own: [suggestionCtxRef] is only written
      by the effect of lines 31-33, modelled by [App.commit];
    - a nullable handle ([T | null]) is an [option]; a handle whose inner
      state plays no role is a [bool] (present or not);
    - calls into the browser ([crypto.randomUUID], [Date.now], the audio
      clock, constructors that may throw) take their result from an
      environment record or from an explicit outcome argument;
    - JavaScript numbers are binary64 floats: the weights, and the times of
      the playback clock, on which the code computes [Math.max] and [+=]
      with the rounding of that format;
    - a handler that a render creates closes over the [suggestionCtx] of that
      render: the [_with] form of a handler takes that value as an argument
      ([captured]), and an [await] splits a handler in the part before and
      the part after it;
    - a callback that raises is a [Gemini.Completion]: the state it leaves,
      and the fact that the exception goes on to its caller. *)

From Stdlib Require Import String List ZArith QArith Lia Bool Floats.
From stdpp Require Import base list strings sorting.

Set Warnings "-inexact-float".

(** ** JavaScript truthiness, as far as the code relies on it *)

Module JS.

(** [x || d] on [number | undefined]: [0], [NaN] and [undefined] are falsy. *)
Definition truthy_number (x : float) : bool :=
  negb (PrimFloat.eqb x 0%float) && negb (PrimFloat.is_nan x).

Definition or_number (x : option float) (d : float) : float :=
  match x with
  | Some v => if truthy_number v then v else d
  | None => d
  end.

(** [x || d] on [string | undefined]: the empty string and [undefined] are
    falsy. *)
Definition truthy_string (x : string) : bool :=
  negb (String.eqb x "").

Definition or_string (x : option string) (d : string) : string :=
  match x with
  | Some v => if truthy_string v then v else d
  | None => d
  end.

(** [Array.prototype.forEach((x, idx) => ...)] with the callback threading a
    state: elements are visited in order, [idx] counts from [from]. *)
Fixpoint forEach_from {A S : Type} (f : A -> nat -> S -> S)
    (from : nat) (l : list A) (s : S) : S :=
  match l with
  | [] => s
  | x :: r => forEach_from f (Datatypes.S from) r (f x from s)
  end.

Definition forEach {A S : Type} (f : A -> nat -> S -> S) (l : list A) (s : S) : S :=
  forEach_from f 0 l s.

(** [Math.max(x, y)] on two numbers: [NaN] when either is [NaN]; otherwise
    the larger of the two, [+0] counting as larger than [-0]. *)
Definition Math_max (x y : float) : float :=
  if PrimFloat.is_nan x || PrimFloat.is_nan y then PrimFloat.nan
  else if PrimFloat.ltb x y then y
  else if PrimFloat.eqb x y then (if PrimFloat.get_sign x then y else x)
  else x.

End JS.

(** ** Binary64 numbers as the reals they stand for *)

Module Binary64.

(** The number of binary digits of a mantissa. *)
Definition digits (m : positive) : Z := Zpos (SpecFloat.digits2_pos m).

(** The exponent of the format for a value of magnitude [2 ^ e]: 53 digits
    of precision, and no exponent below that of the subnormal numbers. *)
Definition fexp64 (e : Z) : Z := Z.max (e - 53) (-1074).

(** The rational a finite float stands for; [None] for infinities and
    [NaN]. *)
Definition exact (x : float) : option Q :=
  match Prim2SF x with
  | SpecFloat.S754_zero _ => Some 0%Q
  | SpecFloat.S754_finite s m e =>
      Some (inject_Z (SpecFloat.cond_Zopp s (Zpos m)) * Qpower 2 e)%Q
  | _ => None
  end.

(** [a + b <= c] on the numbers the three floats stand for. *)
Definition sum_within (a b c : float) : Prop :=
  match exact a, exact b, exact c with
  | Some x, Some y, Some z => (x + y <= z)%Q
  | _, _, _ => False
  end.

End Binary64.

(** ** Data model ([./types], read off its uses in [App.tsx]) *)

Inductive SelectionMethod : Type :=
  | voice_confirmed
  | manual_click
  | implicit_split.

(** Modelled from the spec: the declaration of [WordLog] ([src/types.ts]) is
    not among the sources; the fields are those of the object literal built
    by [addLog] and of the spec's data model. *)
Module WordLog.
Record t : Type := mk {
  id : string;
  word : string;
  category : string;
  weight : float;
  timestamp : Z;
  selectionMethod : SelectionMethod
}.
End WordLog.

(** Modelled from the spec: the declaration of [SuggestionContext]
    ([src/types.ts]) is not among the sources; the fields are those of the
    object literal passed to [setSuggestionCtx].  [words] is a [string[]]:
    nothing in the code fixes its length. *)
Module SuggestionContext.
Record t : Type := mk {
  words : list string;
  category : string;
  timestamp : Z
}.
End SuggestionContext.

(** The signed-in user of [useAuth()]; only [uid] is read. *)
Record User : Type := { uid : string }.

(** ** The speech-recognition wrapper ([SpeechService]) *)

Module Speech.

(** The two callbacks handed to the constructor, as transformers of the
    caller's state. *)
Record Callbacks (St : Type) : Type := {
  onResult : string -> bool -> St -> St;
  onError : string -> St -> St
}.
Arguments onResult {St} _ _ _ _.
Arguments onError {St} _ _ _.

Record t : Type := mk {
  recognition : bool;      (* [this.recognition] is set *)
  isListening : bool;
  shouldRestart : bool
}.

(** [new SpeechService(onResult, onError)].  [webkit] is
    ['webkitSpeechRecognition' in window]; [ctorThrows] says whether
    [new SpeechRecognition()] throws.  The result is [None] when the
    constructor throws. *)
Definition new {St : Type} (cb : Callbacks St) (webkit ctorThrows : bool) (st : St)
    : option t * St :=
  if webkit then
    if ctorThrows then (None, st)
    else (Some {| recognition := true; isListening := false; shouldRestart := false |}, st)
  else
    (Some {| recognition := false; isListening := false; shouldRestart := false |},
     onError cb "Speech recognition not supported in this browser." st).

(** [start()]: the [try] inside swallows a throwing [recognition.start()]. *)
Definition start (startThrows : bool) (sp : t) : t :=
  if recognition sp && negb (isListening sp) then
    if startThrows
    then {| recognition := recognition sp; isListening := isListening sp; shouldRestart := true |}
    else {| recognition := recognition sp; isListening := true; shouldRestart := true |}
  else sp.

Definition stop (sp : t) : t :=
  if recognition sp
  then {| recognition := recognition sp; isListening := false; shouldRestart := false |}
  else sp.

(** One entry of [event.results] from [event.resultIndex] on. *)
Record Result : Type := { isFinal : bool; transcript : string }.

Fixpoint collect (results : list Result) (interimTranscript finalTranscript : string)
    : string * string :=
  match results with
  | [] => (interimTranscript, finalTranscript)
  | r :: rest =>
      if isFinal r
      then collect rest interimTranscript (finalTranscript +:+ transcript r)
      else collect rest (interimTranscript +:+ transcript r) finalTranscript
  end.

(** [recognition.onresult] *)
Definition onresult {St : Type} (cb : Callbacks St) (results : list Result) (st : St) : St :=
  let '(interimTranscript, finalTranscript) := collect results "" "" in
  let st1 := if JS.truthy_string finalTranscript
             then onResult cb finalTranscript true st else st in
  if JS.truthy_string interimTranscript
  then onResult cb interimTranscript false st1 else st1.

(** [recognition.onerror] with [event.error = err] *)
Definition onerror {St : Type} (cb : Callbacks St) (err : string) (sp : t) (st : St)
    : t * St :=
  if String.eqb err "not-allowed"
  then ({| recognition := recognition sp; isListening := isListening sp;
           shouldRestart := false |},
        onError cb "Microphone access denied." st)
  else (sp, st).

(** [recognition.onend] *)
Definition onend (sp : t) : t :=
  if shouldRestart sp && isListening sp then sp
  else {| recognition := recognition sp; isListening := false;
          shouldRestart := shouldRestart sp |}.

End Speech.

(** ** The live-session client ([GeminiService]) *)

Module Gemini.

(** The callbacks of [GeminiServiceProps], as transformers of the caller's
    state. *)
Record GeminiServiceProps (St : Type) : Type := {
  onSuggestions : list string -> string -> St -> St;
  onConfirmedWord : string -> St -> St;
  onTranscriptUpdate : string -> St -> St;
  onError : string -> St -> St
}.
Arguments onSuggestions {St} _ _ _ _.
Arguments onConfirmedWord {St} _ _ _.
Arguments onTranscriptUpdate {St} _ _ _.
Arguments onError {St} _ _ _.

Record t : Type := mk {
  session : bool;
  inputAudioContext : bool;
  outputAudioContext : bool;
  scriptProcessor : bool;
  mediaStreamSource : bool;
  outputNode : bool;
  nextStartTime : float;
  currentStream : bool;
  (* ghost: the calls [source.start(when)] made so far, each with the
     duration of its buffer, most recent first *)
  started : list (float * float)
}.

(** The field initialisers of the class. *)
Definition new : t :=
  {| session := false; inputAudioContext := false; outputAudioContext := false;
     scriptProcessor := false; mediaStreamSource := false; outputNode := false;
     nextStartTime := 0%float; currentStream := false; started := [] |}.

Definition set_nextStartTime (v : float) (g : t) : t :=
  {| session := session g; inputAudioContext := inputAudioContext g;
     outputAudioContext := outputAudioContext g; scriptProcessor := scriptProcessor g;
     mediaStreamSource := mediaStreamSource g; outputNode := outputNode g;
     nextStartTime := v; currentStream := currentStream g; started := started g |}.

Definition source_start (when duration : float) (g : t) : t :=
  {| session := session g; inputAudioContext := inputAudioContext g;
     outputAudioContext := outputAudioContext g; scriptProcessor := scriptProcessor g;
     mediaStreamSource := mediaStreamSource g; outputNode := outputNode g;
     nextStartTime := nextStartTime g; currentStream := currentStream g;
     started := (when, duration) :: started g |}.

(** Where [connect()] leaves its [try] block: at the end, or at the
    constructor of the input context (line 77), at that of the output
    context (line 78), at [getUserMedia] or at the live session. *)
Inductive ConnectOutcome : Type :=
  | Connected
  | AudioContextThrows (message : string)
  | OutputContextThrows (message : string)
  | GetUserMediaRejects (message : string)
  | LiveConnectRejects (message : string).

(** [connect()]: every failure is caught inside and reported through
    [props.onError]; the call itself never throws. *)
Definition connect {St : Type} (props : GeminiServiceProps St) (o : ConnectOutcome)
    (g : t) (st : St) : t * St :=
  let failed message := onError props (JS.or_string (Some message) "Failed to connect to Gemini Live") st in
  let input :=
    {| session := session g; inputAudioContext := true;
       outputAudioContext := outputAudioContext g;
       scriptProcessor := scriptProcessor g; mediaStreamSource := mediaStreamSource g;
       outputNode := outputNode g; nextStartTime := nextStartTime g;
       currentStream := currentStream g; started := started g |} in
  let audio :=
    {| session := session g; inputAudioContext := true; outputAudioContext := true;
       scriptProcessor := scriptProcessor g; mediaStreamSource := mediaStreamSource g;
       outputNode := true; nextStartTime := nextStartTime g;
       currentStream := currentStream g; started := started g |} in
  let stream :=
    {| session := session g; inputAudioContext := true; outputAudioContext := true;
       scriptProcessor := scriptProcessor g; mediaStreamSource := mediaStreamSource g;
       outputNode := true; nextStartTime := nextStartTime g;
       currentStream := true; started := started g |} in
  match o with
  | AudioContextThrows m => (g, failed m)
  | OutputContextThrows m => (input, failed m)
  | GetUserMediaRejects m => (audio, failed m)
  | LiveConnectRejects m => (stream, failed m)
  | Connected =>
      (* [onopen] has run [startAudioInput] by the time the session resolves *)
      ({| session := true; inputAudioContext := true; outputAudioContext := true;
          scriptProcessor := true; mediaStreamSource := true;
          outputNode := true; nextStartTime := nextStartTime g;
          currentStream := true; started := started g |}, st)
  end.

(** [disconnect()], run to its end. *)
Definition disconnect (g : t) : t :=
  {| session := session g; inputAudioContext := false; outputAudioContext := false;
     scriptProcessor := false; mediaStreamSource := false; outputNode := outputNode g;
     nextStartTime := nextStartTime g; currentStream := false; started := started g |}.

(** [disconnect()] up to its first [await] (lines 202-220): the processor,
    the source and the stream are released; the two audio contexts are
    still in place while they close. *)
Definition disconnect_begin (g : t) : t :=
  {| session := session g; inputAudioContext := inputAudioContext g;
     outputAudioContext := outputAudioContext g;
     scriptProcessor := false; mediaStreamSource := false; outputNode := outputNode g;
     nextStartTime := nextStartTime g; currentStream := false; started := started g |}.

(** [disconnect()] from there on (lines 221-228): the contexts have closed
    and their fields are cleared. *)
Definition disconnect_end (g : t) : t :=
  {| session := session g; inputAudioContext := false; outputAudioContext := false;
     scriptProcessor := scriptProcessor g; mediaStreamSource := mediaStreamSource g;
     outputNode := outputNode g; nextStartTime := nextStartTime g;
     currentStream := currentStream g; started := started g |}.

(** [playAudio] up to its [await]: the guard and the clock synchronisation.
    [currentTime] is [this.outputAudioContext.currentTime] at the call. *)
Definition playAudio_sync (currentTime : float) (g : t) : t :=
  if negb (outputAudioContext g) || negb (outputNode g) then g
  else set_nextStartTime (JS.Math_max (nextStartTime g) currentTime) g.

(** [playAudio] after its [await]: [duration] is [buffer.duration] of the
    decoded chunk.  [createBufferSource] on a context nulled by [disconnect]
    in the meantime throws, and nothing is scheduled.  The [+=] of line 198
    is the addition of binary64. *)
Definition playAudio_resume (duration : float) (g : t) : t :=
  if outputAudioContext g then
    set_nextStartTime (nextStartTime g + duration)%float
      (source_start (nextStartTime g) duration g)
  else g.

(** A whole [playAudio] call run without interruption.  [decoded] is [None]
    when [decodeBase64] or [decodeAudioData] throws. *)
Definition playAudio (currentTime : float) (decoded : option float) (g : t) : t :=
  if negb (outputAudioContext g) || negb (outputNode g) then g
  else
    match decoded with
    | Some duration => playAudio_resume duration (playAudio_sync currentTime g)
    | None => playAudio_sync currentTime g
    end.

(** The audio events of a service, for runs in which calls interleave at the
    [await]. *)
Inductive AudioEvent : Type :=
  | Call (currentTime : float)
  | Resume (duration : float).

Definition audio_step (e : AudioEvent) (g : t) : t :=
  match e with
  | Call currentTime => playAudio_sync currentTime g
  | Resume duration => playAudio_resume duration g
  end.

Definition audio_run (es : list AudioEvent) (g : t) : t :=
  fold_left (fun g e => audio_step e g) es g.

(** A sequence of whole [playAudio] calls, chunk after chunk. *)
Definition playAll (chunks : list (float * float)) (g : t) : t :=
  fold_left (fun g c => playAudio (fst c) (Some (snd c)) g) chunks g.

(** The arguments object of a function call; each tool reads its own keys. *)
Record Args : Type := { words : list string; category : string; word : string }.

Record FunctionCall : Type := { fc_id : string; name : string; args : Args }.

Record FunctionResponse : Type := {
  fr_id : string;
  fr_name : string;
  result : string
}.

(** What [handleMessage] reads of a [LiveServerMessage], and the transcript
    text a message may carry besides ([text]), which it does not read. *)
Record LiveServerMessage : Type := {
  inlineData : option string;   (* serverContent?.modelTurn?.parts?.[0]?.inlineData?.data *)
  text : option string;
  toolCall : option (list FunctionCall)
}.

(** The body of the loop over [toolCall.functionCalls]. *)
Definition handleFunctionCall {St : Type} (props : GeminiServiceProps St)
    (fc : FunctionCall) (acc : St * list FunctionResponse)
    : St * list FunctionResponse :=
  let '(st, responses) := acc in
  if String.eqb (name fc) "provideSuggestions" then
    (onSuggestions props (words (args fc)) (category (args fc)) st,
     responses ++ [{| fr_id := fc_id fc; fr_name := name fc;
                      result := "Suggestions displayed to user." |}])
  else if String.eqb (name fc) "confirmSelection" then
    (onConfirmedWord props (word (args fc)) st,
     responses ++ [{| fr_id := fc_id fc; fr_name := name fc;
                      result := "Word confirmed and logged." |}])
  else (st, responses).

(** [handleMessage] with callbacks that return: the synchronous part of
    [playAudio] when the message carries audio, then the tool calls in
    order.  The last component is the list handed to [sendToolResponse]
    (sent when non-empty). *)
Definition handleMessage {St : Type} (props : GeminiServiceProps St)
    (currentTime : float) (message : LiveServerMessage) (g : t) (st : St)
    : t * St * list FunctionResponse :=
  let g1 :=
    match inlineData message with
    | Some audioData =>
        if JS.truthy_string audioData && outputAudioContext g && outputNode g
        then playAudio_sync currentTime g else g
    | None => g
    end in
  match toolCall message with
  | Some functionCalls =>
      let '(st1, responses) :=
        fold_left (fun acc fc => handleFunctionCall props fc acc) functionCalls (st, []) in
      (g1, st1, responses)
  | None => (g1, st, [])
  end.

(** How the call of a callback ends: it returns, or it raises and the
    exception goes on to the caller.  [st] is the state it leaves. *)
Inductive Completion (St : Type) : Type :=
  | Returns (st : St)
  | Raises (st : St).
Arguments Returns {St} _.
Arguments Raises {St} _.

Definition state_of {St : Type} (c : Completion St) : St :=
  match c with
  | Returns st => st
  | Raises st => st
  end.

(** The two callbacks [handleMessage] calls, when they may raise. *)
Record RaisingProps (St : Type) : Type := {
  onSuggestions_ends : list string -> string -> St -> Completion St;
  onConfirmedWord_ends : string -> St -> Completion St
}.
Arguments onSuggestions_ends {St} _ _ _ _.
Arguments onConfirmedWord_ends {St} _ _ _.

(** Callbacks that always return. *)
Definition returning {St : Type} (props : GeminiServiceProps St) : RaisingProps St :=
  {| onSuggestions_ends := fun words category st =>
       Returns (onSuggestions props words category st);
     onConfirmedWord_ends := fun word st => Returns (onConfirmedWord props word st) |}.

(** The loop of lines 154-172.  Nothing in [handleMessage] catches: an
    exception raised by a callback leaves the loop, so the calls after it
    are not looked at and its own response is not pushed. *)
Fixpoint handleFunctionCalls {St : Type} (props : RaisingProps St)
    (functionCalls : list FunctionCall) (st : St) (responses : list FunctionResponse)
    : Completion St * list FunctionResponse :=
  match functionCalls with
  | [] => (Returns st, responses)
  | fc :: rest =>
      if String.eqb (name fc) "provideSuggestions" then
        match onSuggestions_ends props (words (args fc)) (category (args fc)) st with
        | Returns st1 =>
            handleFunctionCalls props rest st1
              (responses ++ [{| fr_id := fc_id fc; fr_name := name fc;
                                result := "Suggestions displayed to user." |}])
        | Raises st1 => (Raises st1, responses)
        end
      else if String.eqb (name fc) "confirmSelection" then
        match onConfirmedWord_ends props (word (args fc)) st with
        | Returns st1 =>
            handleFunctionCalls props rest st1
              (responses ++ [{| fr_id := fc_id fc; fr_name := name fc;
                                result := "Word confirmed and logged." |}])
        | Raises st1 => (Raises st1, responses)
        end
      else handleFunctionCalls props rest st responses
  end.

(** [handleMessage] with callbacks that may raise.  The exception also
    skips lines 174-180: the last component, the list handed to
    [sendToolResponse], is then empty (nothing is sent). *)
Definition handleMessage_raising {St : Type} (props : RaisingProps St)
    (currentTime : float) (message : LiveServerMessage) (g : t) (st : St)
    : t * Completion St * list FunctionResponse :=
  let g1 :=
    match inlineData message with
    | Some audioData =>
        if JS.truthy_string audioData && outputAudioContext g && outputNode g
        then playAudio_sync currentTime g else g
    | None => g
    end in
  match toolCall message with
  | Some functionCalls =>
      match handleFunctionCalls props functionCalls st [] with
      | (Returns st1, responses) => (g1, Returns st1, responses)
      | (Raises st1, _) => (g1, Raises st1, [])
      end
  | None => (g1, Returns st, [])
  end.

End Gemini.

(** ** The application component ([AppContent]) *)

Module App.

(** The state cells of [AppContent], its refs, and what it has asked of the
    outside world so far. *)
Record State : Type := mkState {
  (* [useState] cells *)
  isRecording : bool;
  suggestionCtx : option SuggestionContext.t;
  logs : list WordLog.t;
  showReport : bool;
  error : option string;
  finalTranscript : string;
  interimTranscript : string;
  confirmationMessage : option string;
  (* [useRef] cells *)
  geminiRef : option Gemini.t;
  speechRef : option Speech.t;
  suggestionCtxRef : option SuggestionContext.t;
  (* requests issued: [setDoc(doc(db, path), log)] and [addLogToDB(log)] *)
  cloudWrites : list (string * WordLog.t);
  dbWrites : list WordLog.t;
  (* how many times [crypto.randomUUID()] and [Date.now()] have been called *)
  uuidCalls : nat;
  nowCalls : nat
}.

(** The initial values of the hooks. *)
Definition init : State :=
  {| isRecording := false; suggestionCtx := None; logs := []; showReport := false;
     error := None; finalTranscript := ""; interimTranscript := "";
     confirmationMessage := None; geminiRef := None; speechRef := None;
     suggestionCtxRef := None; cloudWrites := []; dbWrites := [];
     uuidCalls := 0; nowCalls := 0 |}.

Definition setIsRecording (v : bool) (s : State) : State :=
  mkState v (suggestionCtx s) (logs s) (showReport s) (error s) (finalTranscript s)
    (interimTranscript s) (confirmationMessage s) (geminiRef s) (speechRef s)
    (suggestionCtxRef s) (cloudWrites s) (dbWrites s) (uuidCalls s) (nowCalls s).

Definition setSuggestionCtx (v : option SuggestionContext.t) (s : State) : State :=
  mkState (isRecording s) v (logs s) (showReport s) (error s) (finalTranscript s)
    (interimTranscript s) (confirmationMessage s) (geminiRef s) (speechRef s)
    (suggestionCtxRef s) (cloudWrites s) (dbWrites s) (uuidCalls s) (nowCalls s).

Definition setLogs (f : list WordLog.t -> list WordLog.t) (s : State) : State :=
  mkState (isRecording s) (suggestionCtx s) (f (logs s)) (showReport s) (error s)
    (finalTranscript s) (interimTranscript s) (confirmationMessage s) (geminiRef s)
    (speechRef s) (suggestionCtxRef s) (cloudWrites s) (dbWrites s) (uuidCalls s)
    (nowCalls s).

Definition setShowReport (v : bool) (s : State) : State :=
  mkState (isRecording s) (suggestionCtx s) (logs s) v (error s) (finalTranscript s)
    (interimTranscript s) (confirmationMessage s) (geminiRef s) (speechRef s)
    (suggestionCtxRef s) (cloudWrites s) (dbWrites s) (uuidCalls s) (nowCalls s).

Definition setError (v : option string) (s : State) : State :=
  mkState (isRecording s) (suggestionCtx s) (logs s) (showReport s) v (finalTranscript s)
    (interimTranscript s) (confirmationMessage s) (geminiRef s) (speechRef s)
    (suggestionCtxRef s) (cloudWrites s) (dbWrites s) (uuidCalls s) (nowCalls s).

Definition setFinalTranscript (f : string -> string) (s : State) : State :=
  mkState (isRecording s) (suggestionCtx s) (logs s) (showReport s) (error s)
    (f (finalTranscript s)) (interimTranscript s) (confirmationMessage s) (geminiRef s)
    (speechRef s) (suggestionCtxRef s) (cloudWrites s) (dbWrites s) (uuidCalls s)
    (nowCalls s).

Definition setInterimTranscript (v : string) (s : State) : State :=
  mkState (isRecording s) (suggestionCtx s) (logs s) (showReport s) (error s)
    (finalTranscript s) v (confirmationMessage s) (geminiRef s) (speechRef s)
    (suggestionCtxRef s) (cloudWrites s) (dbWrites s) (uuidCalls s) (nowCalls s).

Definition setConfirmationMessage (v : option string) (s : State) : State :=
  mkState (isRecording s) (suggestionCtx s) (logs s) (showReport s) (error s)
    (finalTranscript s) (interimTranscript s) v (geminiRef s) (speechRef s)
    (suggestionCtxRef s) (cloudWrites s) (dbWrites s) (uuidCalls s) (nowCalls s).

Definition set_geminiRef (v : option Gemini.t) (s : State) : State :=
  mkState (isRecording s) (suggestionCtx s) (logs s) (showReport s) (error s)
    (finalTranscript s) (interimTranscript s) (confirmationMessage s) v (speechRef s)
    (suggestionCtxRef s) (cloudWrites s) (dbWrites s) (uuidCalls s) (nowCalls s).

Definition set_speechRef (v : option Speech.t) (s : State) : State :=
  mkState (isRecording s) (suggestionCtx s) (logs s) (showReport s) (error s)
    (finalTranscript s) (interimTranscript s) (confirmationMessage s) (geminiRef s) v
    (suggestionCtxRef s) (cloudWrites s) (dbWrites s) (uuidCalls s) (nowCalls s).

Definition set_suggestionCtxRef (v : option SuggestionContext.t) (s : State) : State :=
  mkState (isRecording s) (suggestionCtx s) (logs s) (showReport s) (error s)
    (finalTranscript s) (interimTranscript s) (confirmationMessage s) (geminiRef s)
    (speechRef s) v (cloudWrites s) (dbWrites s) (uuidCalls s) (nowCalls s).

(** [crypto.randomUUID()] and [Date.now()]: the k-th call returns the k-th
    value of the environment. *)
Definition draw_uuid (s : State) : State :=
  mkState (isRecording s) (suggestionCtx s) (logs s) (showReport s) (error s)
    (finalTranscript s) (interimTranscript s) (confirmationMessage s) (geminiRef s)
    (speechRef s) (suggestionCtxRef s) (cloudWrites s) (dbWrites s)
    (S (uuidCalls s)) (nowCalls s).

Definition draw_now (s : State) : State :=
  mkState (isRecording s) (suggestionCtx s) (logs s) (showReport s) (error s)
    (finalTranscript s) (interimTranscript s) (confirmationMessage s) (geminiRef s)
    (speechRef s) (suggestionCtxRef s) (cloudWrites s) (dbWrites s)
    (uuidCalls s) (S (nowCalls s)).

Definition setDoc (path : string) (data : WordLog.t) (s : State) : State :=
  mkState (isRecording s) (suggestionCtx s) (logs s) (showReport s) (error s)
    (finalTranscript s) (interimTranscript s) (confirmationMessage s) (geminiRef s)
    (speechRef s) (suggestionCtxRef s) (cloudWrites s ++ [(path, data)]) (dbWrites s)
    (uuidCalls s) (nowCalls s).

Definition addLogToDB (data : WordLog.t) (s : State) : State :=
  mkState (isRecording s) (suggestionCtx s) (logs s) (showReport s) (error s)
    (finalTranscript s) (interimTranscript s) (confirmationMessage s) (geminiRef s)
    (speechRef s) (suggestionCtxRef s) (cloudWrites s) (dbWrites s ++ [data])
    (uuidCalls s) (nowCalls s).

(** What the component takes from outside: the signed-in user, the values
    returned by [crypto.randomUUID()] and [Date.now()], and
    [showConfirmation], which line 98 calls and nothing binds: evaluating
    the identifier raises a [ReferenceError].  The field says what that
    evaluation does to the state before the exception leaves the callback
    (nothing, in a browser: see [Sample.env]); the theorems on logs and
    context only ask that it leaves those alone. *)
Record Env : Type := {
  user : option User;
  randomUUID : nat -> string;
  dateNow : nat -> Z;
  showConfirmation : string -> State -> State
}.

(** What the theorems need of [showConfirmation]: it leaves the logs and the
    suggestion context alone. *)
Definition showConfirmation_frame (E : Env) : Prop :=
  forall (w : string) (s : State),
    logs (showConfirmation E w s) = logs s /\
    suggestionCtx (showConfirmation E w s) = suggestionCtx s /\
    suggestionCtxRef (showConfirmation E w s) = suggestionCtxRef s.

(** The effect of lines 31-33, run after a render in which [suggestionCtx]
    changed: the ref takes the rendered value. *)
Definition commit (s : State) : State :=
  set_suggestionCtxRef (suggestionCtx s) s.

(** The ref mirrors the state cell (no [setSuggestionCtx] since the effect
    last ran). *)
Definition settled (s : State) : Prop :=
  suggestionCtxRef s = suggestionCtx s.

(** The mount effect of lines 58-62, when the local store answers. *)
Definition loadSavedLogs (savedLogs : list WordLog.t) (s : State) : State :=
  setLogs (fun _ => savedLogs) s.

Section Handlers.

Variable E : Env.

Definition addLog (word category : string) (weight : float)
    (method : SelectionMethod) (s : State) : State :=
  let newLog :=
    {| WordLog.id := randomUUID E (uuidCalls s);
       WordLog.word := word;
       WordLog.category := category;
       WordLog.weight := weight;
       WordLog.timestamp := dateNow E (nowCalls s);
       WordLog.selectionMethod := method |} in
  let s1 := draw_now (draw_uuid s) in
  let s2 :=
    match user E with
    | Some u => setDoc ("users/" +:+ uid u +:+ "/logs/" +:+ WordLog.id newLog) newLog s1
    | None => s1
    end in
  let s3 := addLogToDB newLog s2 in
  setLogs (fun prev => prev ++ [newLog]) s3.

Definition weights : list float := [0.5; 0.4; 0.1]%float.

(** Logic for implicit split (50/40/10). *)
Definition processImplicitSplit (ctx : SuggestionContext.t) (s : State) : State :=
  JS.forEach
    (fun word idx =>
       addLog word (SuggestionContext.category ctx)
         (JS.or_number (weights !! idx) 0.1%float) implicit_split)
    (SuggestionContext.words ctx) s.

(** The callbacks handed to [new GeminiService]. *)
Definition onSuggestions (words : list string) (category : string) (s : State) : State :=
  let prev := suggestionCtxRef s in
  let s1 := match prev with
            | Some p => processImplicitSplit p s
            | None => s
            end in
  setSuggestionCtx
    (Some {| SuggestionContext.words := words;
             SuggestionContext.category := category;
             SuggestionContext.timestamp := dateNow E (nowCalls s1) |})
    (draw_now s1).

(** The state [onConfirmedWord] leaves.  Its last line raises (see
    [geminiCallbacks]); the four updates before it are made. *)
Definition onConfirmedWord (word : string) (s : State) : State :=
  let current := suggestionCtxRef s in
  let category :=
    JS.or_string (option_map SuggestionContext.category current) "General" in
  let s1 := addLog word category 1.0%float voice_confirmed s in
  let s2 := setSuggestionCtx None s1 in
  let s3 := setFinalTranscript (fun _ => "") s2 in
  let s4 := setInterimTranscript "" s3 in
  showConfirmation E word s4.

Definition onRejectWord (s : State) : State :=
  setSuggestionCtx None s.

Definition onTranscriptUpdate (text : string) (s : State) : State :=
  setFinalTranscript (fun prev => prev +:+ text) s.

Definition onError (err : string) (s : State) : State :=
  setError (Some err) s.

Definition geminiProps : Gemini.GeminiServiceProps State :=
  {| Gemini.onSuggestions := onSuggestions;
     Gemini.onConfirmedWord := onConfirmedWord;
     Gemini.onTranscriptUpdate := onTranscriptUpdate;
     Gemini.onError := onError |}.

(** How the two callbacks of [handleMessage] end: [onSuggestions] returns;
    [onConfirmedWord] raises at its last line, after its updates. *)
Definition geminiCallbacks : Gemini.RaisingProps State :=
  {| Gemini.onSuggestions_ends := fun words category s =>
       Gemini.Returns (onSuggestions words category s);
     Gemini.onConfirmedWord_ends := fun word s =>
       Gemini.Raises (onConfirmedWord word s) |}.

(** The callbacks handed to [new SpeechService]; the error callback only
    writes to the console. *)
Definition speechCallbacks : Speech.Callbacks State :=
  {| Speech.onResult := fun text isFinal s =>
       if isFinal then
         setInterimTranscript ""
           (setFinalTranscript
              (fun prev => if JS.truthy_string prev then prev +:+ ". " +:+ text else text) s)
       else setInterimTranscript text s;
     Speech.onError := fun _ s => s |}.

(** What the browser and the network decide during [handleStartSession]. *)
Record StartOutcome : Type := {
  window_SpeechRecognition : bool;         (* ['SpeechRecognition' in window] *)
  window_webkitSpeechRecognition : bool;   (* ['webkitSpeechRecognition' in window] *)
  geminiCtorThrows : bool;                 (* [new GeminiService(...)] throws *)
  recognitionCtorThrows : bool;            (* [new SpeechRecognition()] throws *)
  connectOutcome : Gemini.ConnectOutcome;
  recognitionStartThrows : bool            (* [recognition.start()] throws *)
}.

Definition handleStartSession (o : StartOutcome) (s : State) : State :=
  let s := setInterimTranscript "" (setFinalTranscript (fun _ => "") (setError None s)) in
  let hasWebSpeech := window_SpeechRecognition o || window_webkitSpeechRecognition o in
  if geminiCtorThrows o then setError (Some "Failed to start session.") s
  else
    let s := set_geminiRef (Some Gemini.new) s in
    let s :=
      if hasWebSpeech then
        let '(sp, s') :=
          Speech.new speechCallbacks (window_webkitSpeechRecognition o)
            (recognitionCtorThrows o) s in
        set_speechRef sp s'
      else s in
    let s :=
      match geminiRef s with
      | Some g =>
          let '(g', s') := Gemini.connect geminiProps (connectOutcome o) g s in
          set_geminiRef (Some g') s'
      | None => s
      end in
    let s :=
      match speechRef s with
      | Some sp => set_speechRef (Some (Speech.start (recognitionStartThrows o) sp)) s
      | None => s
      end in
    setIsRecording true s.

(** The handlers of the buttons.  A render creates them, and they close
    over the [suggestionCtx] of that render, [captured] below: a handler
    sees a later value of the cell only once a later render has replaced
    it. *)

(** [handleStopSession] up to its [await] (line 160): [disconnect()] has
    been called on the service and has run up to its own first [await]. *)
Definition handleStopSession_call (s : State) : State :=
  match geminiRef s with
  | Some g => set_geminiRef (Some (Gemini.disconnect_begin g)) s
  | None => s
  end.

(** Lines 164-174, which do not wait. *)
Definition handleStopSession_rest (captured : option SuggestionContext.t) (s : State)
    : State :=
  let s := match speechRef s with
           | Some sp => set_speechRef None (set_speechRef (Some (Speech.stop sp)) s)
           | None => s
           end in
  let s := setIsRecording false s in
  match captured with
  | Some ctx => setSuggestionCtx None (processImplicitSplit ctx s)
  | None => s
  end.

(** From the [await] on: [disconnect()] has finished on the service, which
    line 161 then drops from the ref. *)
Definition handleStopSession_resume (captured : option SuggestionContext.t) (s : State)
    : State :=
  handleStopSession_rest captured (set_geminiRef None s).

(** The whole handler with nothing else running during its [await]; without
    a service in the ref there is no [await]. *)
Definition handleStopSession_with (captured : option SuggestionContext.t) (s : State)
    : State :=
  match geminiRef s with
  | Some _ => handleStopSession_resume captured (handleStopSession_call s)
  | None => handleStopSession_rest captured s
  end.

Definition handleManualSelect_with (captured : option SuggestionContext.t)
    (word : string) (index : nat) (s : State) : State :=
  match captured with
  | None => s
  | Some ctx =>
      setSuggestionCtx None (addLog word (SuggestionContext.category ctx) 1.0%float manual_click s)
  end.

Definition handleSkip_with (captured : option SuggestionContext.t) (s : State) : State :=
  match captured with
  | Some _ => setSuggestionCtx None s
  | None => s
  end.

(** The handlers on screen once a state has been rendered: those the
    render of that state created, each run to its end with nothing else in
    between. *)
Definition handleStopSession (s : State) : State :=
  handleStopSession_with (suggestionCtx s) s.

Definition handleManualSelect (word : string) (index : nat) (s : State) : State :=
  handleManualSelect_with (suggestionCtx s) word index s.

Definition handleSkip (s : State) : State :=
  handleSkip_with (suggestionCtx s) s.

(** A message of the live session.  The session's callbacks hold the
    service itself, not the ref: once [handleStopSession] has dropped it
    from [geminiRef] the messages still reach it ([disconnect()] does not
    close the session), with its audio contexts gone.  An exception raised
    by a callback ends [handleMessage]; the state is as the callback left
    it. *)
Definition onmessage (currentTime : float) (message : Gemini.LiveServerMessage) (s : State)
    : State :=
  match geminiRef s with
  | Some g =>
      let '(g', c, _) :=
        Gemini.handleMessage_raising geminiCallbacks currentTime message g s in
      set_geminiRef (Some g') (Gemini.state_of c)
  | None =>
      let '(_, c, _) :=
        Gemini.handleMessage_raising geminiCallbacks currentTime message
          (Gemini.disconnect Gemini.new) s in
      Gemini.state_of c
  end.

End Handlers.

End App.

(** ** The policies, as the specification words them *)

Module Policy.

(** What a log entry says about a resolution: word, category, weight and
    selection method (the id and the timestamp come from the environment). *)
Definition outcome (l : WordLog.t) : string * string * float * SelectionMethod :=
  (WordLog.word l, WordLog.category l, WordLog.weight l, WordLog.selectionMethod l).

(** The implicit-split weight of the word at position [idx]: 0.5, 0.4, then
    0.1 from the third word on. *)
Definition splitWeight (idx : nat) : float :=
  match idx with
  | 0 => 0.5%float
  | 1 => 0.4%float
  | _ => 0.1%float
  end.

(** The entries the implicit split of [words] under [category] appends, the
    first word standing at position [idx], when [uuids] ids and [nows] clock
    readings have been drawn before. *)
Fixpoint splitEntries (E : App.Env) (category : string) (uuids nows idx : nat)
    (words : list string) : list WordLog.t :=
  match words with
  | [] => []
  | w :: rest =>
      {| WordLog.id := App.randomUUID E uuids;
         WordLog.word := w;
         WordLog.category := category;
         WordLog.weight := splitWeight idx;
         WordLog.timestamp := App.dateNow E nows;
         WordLog.selectionMethod := implicit_split |}
      :: splitEntries E category (S uuids) (S nows) (S idx) rest
  end.

(** The entry of an explicit confirmation. *)
Definition confirmedEntry (E : App.Env) (s : App.State) (word category : string)
    (method : SelectionMethod) : WordLog.t :=
  {| WordLog.id := App.randomUUID E (App.uuidCalls s);
     WordLog.word := word;
     WordLog.category := category;
     WordLog.weight := 1.0%float;
     WordLog.timestamp := App.dateNow E (App.nowCalls s);
     WordLog.selectionMethod := method |}.

(** The operations of the application, as events of the component.  A
    press of a button (click, skip, stop) is that of the button the render
    of the current state shows. *)
Inductive Operation : Type :=
  | SuggestionArrival (words : list string) (category : string)
  | VoiceConfirmation (word : string)
  | ManualClick (word : string) (index : nat)
  | Skip
  | SessionStart (o : App.StartOutcome)
  | SessionStop
  | Rejection
  | TranscriptUpdate (text : string)
  | SessionError (err : string)
  | RecognitionResult (results : list Speech.Result)
  | Render.

Definition perform (E : App.Env) (op : Operation) (s : App.State) : App.State :=
  match op with
  | SuggestionArrival words category => App.onSuggestions E words category s
  | VoiceConfirmation word => App.onConfirmedWord E word s
  | ManualClick word index => App.handleManualSelect E word index s
  | Skip => App.handleSkip s
  | SessionStart o => App.handleStartSession E o s
  | SessionStop => App.handleStopSession E s
  | Rejection => App.onRejectWord s
  | TranscriptUpdate text => App.onTranscriptUpdate text s
  | SessionError err => App.onError err s
  | RecognitionResult results => Speech.onresult App.speechCallbacks results s
  | Render => App.commit s
  end.

Definition performAll (E : App.Env) (ops : list Operation) (s : App.State) : App.State :=
  fold_left (fun s op => perform E op s) ops s.

(** What the implicit split of one suggestion set says, entry by entry. *)
Definition splitOutcomes (set : list string * string)
    : list (string * string * float * SelectionMethod) :=
  imap (fun idx word => (word, snd set, splitWeight idx, implicit_split)) (fst set).

(** Suggestion sets arriving one after the other, each rendered before the
    next arrives. *)
Definition arrivals (E : App.Env) (sets : list (list string * string)) (s : App.State)
    : App.State :=
  fold_left (fun s set => App.commit (App.onSuggestions E (fst set) (snd set) s)) sets s.

(** Playback without overlap: in [scheduled] (most recent first) every
    chunk ends no later than the next one starts, and the last one ends no
    later than [cursor]; starts, durations and ends are compared as the
    real numbers they are. *)
Fixpoint back_to_back (cursor : float) (scheduled : list (float * float)) : Prop :=
  match scheduled with
  | [] => True
  | (when, duration) :: earlier =>
      Binary64.sum_within when duration cursor /\ back_to_back when earlier
  end.

Definition sequential (g : Gemini.t) : Prop :=
  back_to_back (Gemini.nextStartTime g) (Gemini.started g).

(** The cursor stands exactly one chunk duration after the start of the
    chunk, as real numbers. *)
Definition advanced_exactly (start duration cursor : float) : Prop :=
  match Binary64.exact start, Binary64.exact duration, Binary64.exact cursor with
  | Some x, Some d, Some c => (c == x + d)%Q
  | _, _, _ => False
  end.

(** An audio event whose clock reading, or buffer duration, is a number not
    below zero (so not [NaN] either). *)
Definition nonnegative (e : Gemini.AudioEvent) : Prop :=
  match e with
  | Gemini.Call currentTime => (0 <=? currentTime)%float = true
  | Gemini.Resume duration => (0 <=? duration)%float = true
  end.

End Policy.

(** ** Sample data for the concrete instances *)

Module Sample.

(** A signed-in user, ids and clock readings that differ from call to call,
    and [showConfirmation] as it is in a browser: the identifier is bound
    nowhere, so evaluating it changes no cell. *)
Definition env : App.Env :=
  {| App.user := Some {| uid := "u1" |};
     App.randomUUID := fun k => "id-" +:+ String.concat "" (replicate k "i");
     App.dateNow := fun k => (1700000000000 + Z.of_nat k)%Z;
     App.showConfirmation := fun _ s => s |}.

Definition animals : SuggestionContext.t :=
  {| SuggestionContext.words := ["dog"; "cat"; "fox"];
     SuggestionContext.category := "Animals";
     SuggestionContext.timestamp := 1699999999000%Z |}.

(** A context whose category is the empty string. *)
Definition uncategorised : SuggestionContext.t :=
  {| SuggestionContext.words := ["dog"; "cat"; "fox"];
     SuggestionContext.category := "";
     SuggestionContext.timestamp := 1699999999000%Z |}.

(** A rendered state showing the context [ctx] (the ref mirrors it). *)
Definition showing (ctx : SuggestionContext.t) : App.State :=
  App.commit (App.setSuggestionCtx (Some ctx) App.init).

(** A rendered state with one entry logged: [animals] was shown and "cat"
    was tapped. *)
Definition resolved : App.State :=
  App.commit (App.handleManualSelect env "cat" 1 (showing animals)).

(** A browser without on-device recognition, and one with it; the live
    session connects in both. *)
Definition unsupported : App.StartOutcome :=
  {| App.window_SpeechRecognition := false;
     App.window_webkitSpeechRecognition := false;
     App.geminiCtorThrows := false;
     App.recognitionCtorThrows := false;
     App.connectOutcome := Gemini.Connected;
     App.recognitionStartThrows := false |}.

Definition supported : App.StartOutcome :=
  {| App.window_SpeechRecognition := true;
     App.window_webkitSpeechRecognition := true;
     App.geminiCtorThrows := false;
     App.recognitionCtorThrows := false;
     App.connectOutcome := Gemini.Connected;
     App.recognitionStartThrows := false |}.

(** A running session with nothing suggested yet. *)
Definition listening : App.State :=
  App.handleStartSession env unsupported App.init.

(** The service of a session that has connected. *)
Definition connected : Gemini.t :=
  fst (Gemini.connect (App.geminiProps env) Gemini.Connected Gemini.new App.init).

Definition provideSuggestions (id : string) (words : list string) (category : string)
    : Gemini.FunctionCall :=
  {| Gemini.fc_id := id; Gemini.name := "provideSuggestions";
     Gemini.args := {| Gemini.words := words; Gemini.category := category;
                       Gemini.word := "" |} |}.

Definition confirmSelection (id : string) (word : string) : Gemini.FunctionCall :=
  {| Gemini.fc_id := id; Gemini.name := "confirmSelection";
     Gemini.args := {| Gemini.words := []; Gemini.category := "";
                       Gemini.word := word |} |}.

(** One tool-call message carrying two suggestion sets. *)
Definition twoSets : Gemini.LiveServerMessage :=
  {| Gemini.inlineData := None;
     Gemini.text := None;
     Gemini.toolCall :=
       Some [provideSuggestions "call-1" ["dog"; "cat"; "fox"] "Animals";
             provideSuggestions "call-2" ["car"; "bus"; "van"] "Vehicles"] |}.

(** A tool-call message carrying one function call. *)
Definition calling (fc : Gemini.FunctionCall) : Gemini.LiveServerMessage :=
  {| Gemini.inlineData := None; Gemini.text := None; Gemini.toolCall := Some [fc] |}.

(** A running session in which the set dog, cat, fox has arrived under
    Animals and has been rendered: the buttons on screen, Stop included,
    are those of that render, and the ref mirrors the context. *)
Definition suggested : App.State :=
  App.commit
    (App.onmessage env 0 (calling (provideSuggestions "call-1" ["dog"; "cat"; "fox"] "Animals"))
       listening).

(** A message carrying transcript text and nothing else. *)
Definition transcribed : Gemini.LiveServerMessage :=
  {| Gemini.inlineData := None;
     Gemini.text := Some "I want the thing you sit on";
     Gemini.toolCall := None |}.

End Sample.

(** ** Reference descriptions for the further properties *)

Module Reference.

(** Strings put one after the other. *)
Definition joined (l : list string) : string := fold_right String.append "" l.

(** The transcripts of the final, and of the interim, results of one
    recognition event, in order. *)
Definition finalText (results : list Speech.Result) : string :=
  joined (Speech.transcript <$> List.filter Speech.isFinal results).

Definition interimText (results : list Speech.Result) : string :=
  joined (Speech.transcript <$> List.filter (fun r => negb (Speech.isFinal r)) results).

(** The sentences a run of recognition events contributes: the non-empty
    final texts. *)
Definition sentences (events : list (list Speech.Result)) : list string :=
  List.filter JS.truthy_string (finalText <$> events).

(** What one final result makes of the final transcript. *)
Definition sentence (prev text : string) : string :=
  if JS.truthy_string prev then prev +:+ ". " +:+ text else text.

(** The function calls [handleMessage] acts on. *)
Definition recognised (fc : Gemini.FunctionCall) : bool :=
  String.eqb (Gemini.name fc) "provideSuggestions"
  || String.eqb (Gemini.name fc) "confirmSelection".

Definition responseTo (fc : Gemini.FunctionCall) : Gemini.FunctionResponse :=
  {| Gemini.fr_id := Gemini.fc_id fc;
     Gemini.fr_name := Gemini.name fc;
     Gemini.result := if String.eqb (Gemini.name fc) "provideSuggestions"
                      then "Suggestions displayed to user."
                      else "Word confirmed and logged." |}.

(** The operations a list of function calls stands for. *)
Definition callOps (calls : list Gemini.FunctionCall) : list Policy.Operation :=
  flat_map
    (fun fc =>
       if String.eqb (Gemini.name fc) "provideSuggestions"
       then [Policy.SuggestionArrival (Gemini.words (Gemini.args fc))
               (Gemini.category (Gemini.args fc))]
       else if String.eqb (Gemini.name fc) "confirmSelection"
       then [Policy.VoiceConfirmation (Gemini.word (Gemini.args fc))]
       else [])
    calls.

(** The function calls [handleMessage] gets to when the callback of a
    [confirmSelection] raises: those up to the first call of that name,
    that one included. *)
Fixpoint upToConfirmation (calls : list Gemini.FunctionCall) : list Gemini.FunctionCall :=
  match calls with
  | [] => []
  | fc :: rest =>
      if String.eqb (Gemini.name fc) "confirmSelection" then [fc]
      else fc :: upToConfirmation rest
  end.

Definition confirms (calls : list Gemini.FunctionCall) : bool :=
  existsb (fun fc => String.eqb (Gemini.name fc) "confirmSelection") calls.

(** The cloud documents written for the entries [new]. *)
Definition cloudDocs (u : option User) (new : list WordLog.t) : list (string * WordLog.t) :=
  match u with
  | Some u => (fun l => ("users/" +:+ uid u +:+ "/logs/" +:+ WordLog.id l, l)) <$> new
  | None => []
  end.

(** [showConfirmation] writes the confirmation message and nothing else. *)
Definition showConfirmation_inert (E : App.Env) : Prop :=
  forall (w : string) (s : App.State),
    App.showConfirmation E w s =
    App.setConfirmationMessage (App.confirmationMessage (App.showConfirmation E w s)) s.

(** A step that neither logs, nor writes to a store, nor draws an id or a
    clock reading. *)
Definition quiet (s s' : App.State) : Prop :=
  App.logs s' = App.logs s /\
  App.dbWrites s' = App.dbWrites s /\
  App.cloudWrites s' = App.cloudWrites s /\
  App.uuidCalls s' = App.uuidCalls s /\
  App.nowCalls s' = App.nowCalls s.

(** The message [connect] hands to [props.onError] on a failure. *)
Definition reported (o : Gemini.ConnectOutcome) : option string :=
  match o with
  | Gemini.Connected => None
  | Gemini.AudioContextThrows m | Gemini.OutputContextThrows m
  | Gemini.GetUserMediaRejects m | Gemini.LiveConnectRejects m =>
      Some (if String.eqb m "" then "Failed to connect to Gemini Live" else m)
  end.

End Reference.

(** Further sample data. *)

Module Scenario.

Definition result (isFinal : bool) (transcript : string) : Speech.Result :=
  {| Speech.isFinal := isFinal; Speech.transcript := transcript |}.

(** Three recognition events: a sentence in two final pieces, an interim
    guess only, and a second sentence followed by an interim guess. *)
Definition events : list (list Speech.Result) :=
  [ [result true "I want "; result true "the thing"];
    [result false "you sit"];
    [result true "you sit on"; result false "a ch"] ].

(** A session in a browser with on-device recognition. *)
Definition dictating : App.State :=
  App.handleStartSession Sample.env Sample.supported App.init.

Definition denied : Gemini.ConnectOutcome :=
  Gemini.GetUserMediaRejects "Permission denied".

Definition failing : App.StartOutcome :=
  {| App.window_SpeechRecognition := true;
     App.window_webkitSpeechRecognition := true;
     App.geminiCtorThrows := false;
     App.recognitionCtorThrows := false;
     App.connectOutcome := denied;
     App.recognitionStartThrows := false |}.

Definition broken : App.StartOutcome :=
  {| App.window_SpeechRecognition := true;
     App.window_webkitSpeechRecognition := true;
     App.geminiCtorThrows := true;
     App.recognitionCtorThrows := false;
     App.connectOutcome := Gemini.Connected;
     App.recognitionStartThrows := false |}.

(** Chunks of 0.04 s (960 samples at 24 kHz) played one after the other
    on a connected service, each call running to its end at clock reading
    0: two of them, and a third after these. *)
Definition chunk : float := 0.04%float.

Definition twoChunks : Gemini.t :=
  Gemini.playAll [(0, chunk); (0, chunk)]%float Sample.connected.

Definition threeChunks : Gemini.t :=
  Gemini.playAudio 0 (Some chunk) twoChunks.


(** A message with two tool calls the client knows and one it does not. *)
Definition mixed : Gemini.LiveServerMessage :=
  {| Gemini.inlineData := Some "AAAA";
     Gemini.text := None;
     Gemini.toolCall :=
       Some [Sample.provideSuggestions "call-1" ["dog"; "cat"; "fox"] "Animals";
             {| Gemini.fc_id := "call-2"; Gemini.name := "endSession";
                Gemini.args := {| Gemini.words := []; Gemini.category := "";
                                  Gemini.word := "" |} |};
             Sample.confirmSelection "call-3" "dog"] |}.

End Scenario.

(** * Properties *)

Import App Policy.
Import Reference.

(** ** Log bookkeeping *)

Section LogFacts.

Variable E : Env.

Lemma addLog_logs word category weight method s :
  logs (addLog E word category weight method s) =
  logs s ++ [ {| WordLog.id := randomUUID E (uuidCalls s);
                 WordLog.word := word;
                 WordLog.category := category;
                 WordLog.weight := weight;
                 WordLog.timestamp := dateNow E (nowCalls s);
                 WordLog.selectionMethod := method |} ].
Proof. unfold addLog. destruct (user E); reflexivity. Qed.

Lemma addLog_cells word category weight method s :
  suggestionCtx (addLog E word category weight method s) = suggestionCtx s /\
  suggestionCtxRef (addLog E word category weight method s) = suggestionCtxRef s /\
  uuidCalls (addLog E word category weight method s) = S (uuidCalls s) /\
  nowCalls (addLog E word category weight method s) = S (nowCalls s).
Proof. unfold addLog. destruct (user E); repeat split; reflexivity. Qed.

(** Every entry is also sent to the local store, and to the user's cloud
    collection when a user is signed in. *)
Lemma addLog_writes word category weight method s :
  let newLog := {| WordLog.id := randomUUID E (uuidCalls s);
                   WordLog.word := word;
                   WordLog.category := category;
                   WordLog.weight := weight;
                   WordLog.timestamp := dateNow E (nowCalls s);
                   WordLog.selectionMethod := method |} in
  dbWrites (addLog E word category weight method s) = dbWrites s ++ [newLog] /\
  cloudWrites (addLog E word category weight method s) =
    match user E with
    | Some u =>
        cloudWrites s ++ [("users/" +:+ uid u +:+ "/logs/" +:+ WordLog.id newLog, newLog)]
    | None => cloudWrites s
    end.
Proof. unfold addLog. destruct (user E); split; reflexivity. Qed.

Lemma weights_lookup idx :
  JS.or_number (weights !! idx) 0.1%float = splitWeight idx.
Proof. destruct idx as [|[|[|idx]]]; reflexivity. Qed.

Lemma forEach_split_logs category words : forall idx s,
  logs (JS.forEach_from
          (fun word idx =>
             addLog E word category (JS.or_number (weights !! idx) 0.1%float)
               implicit_split) idx words s) =
  logs s ++ splitEntries E category (uuidCalls s) (nowCalls s) idx words.
Proof.
  induction words as [|w rest IH]; intros idx s; simpl.
  - now rewrite app_nil_r.
  - rewrite IH, addLog_logs, weights_lookup.
    destruct (addLog_cells w category (splitWeight idx) implicit_split s)
      as (_ & _ & -> & ->).
    now rewrite <- app_assoc.
Qed.

Lemma forEach_split_cells category words : forall idx s,
  let s' := JS.forEach_from
              (fun word idx =>
                 addLog E word category (JS.or_number (weights !! idx) 0.1%float)
                   implicit_split) idx words s in
  suggestionCtx s' = suggestionCtx s /\
  suggestionCtxRef s' = suggestionCtxRef s /\
  uuidCalls s' = length words + uuidCalls s /\
  nowCalls s' = length words + nowCalls s.
Proof.
  induction words as [|w rest IH]; intros idx s; simpl.
  - repeat split; reflexivity.
  - destruct (IH (S idx)
                (addLog E w category (JS.or_number (weights !! idx) 0.1%float)
                   implicit_split s)) as (H1 & H2 & H3 & H4).
    destruct (addLog_cells w category (JS.or_number (weights !! idx) 0.1%float)
                implicit_split s) as (A1 & A2 & A3 & A4).
    rewrite H1, H2, H3, H4, A1, A2, A3, A4. repeat split; lia.
Qed.

Lemma processImplicitSplit_logs ctx s :
  logs (processImplicitSplit E ctx s) =
  logs s ++ splitEntries E (SuggestionContext.category ctx)
              (uuidCalls s) (nowCalls s) 0 (SuggestionContext.words ctx).
Proof. apply forEach_split_logs. Qed.

Lemma processImplicitSplit_cells ctx s :
  suggestionCtx (processImplicitSplit E ctx s) = suggestionCtx s /\
  suggestionCtxRef (processImplicitSplit E ctx s) = suggestionCtxRef s.
Proof.
  destruct (forEach_split_cells (SuggestionContext.category ctx)
              (SuggestionContext.words ctx) 0 s) as (H1 & H2 & _).
  split; assumption.
Qed.

Lemma splitEntries_length category words : forall uuids nows idx,
  length (splitEntries E category uuids nows idx words) = length words.
Proof. induction words; intros; simpl; [reflexivity | now rewrite IHwords]. Qed.

Lemma splitEntries_outcome category words : forall uuids nows idx,
  outcome <$> splitEntries E category uuids nows idx words =
  imap (fun i w => (w, category, splitWeight (idx + i), implicit_split)) words.
Proof.
  induction words as [|w rest IH]; intros uuids nows idx; simpl; [reflexivity|].
  rewrite IH. unfold outcome at 1; simpl. rewrite Nat.add_0_r. f_equal.
  apply imap_ext. intros i x _. simpl. now rewrite Nat.add_succ_r.
Qed.

End LogFacts.

(** C9: for a context whose word list has any length n, the implicit split
    appends exactly n entries, one per word in order, each under the
    context's category with method [implicit_split], weighted 0.5 at index
    0, 0.4 at index 1 and 0.1 at every index from 2 on. *)
Theorem processImplicitSplit_any_length (E : Env) (ctx : SuggestionContext.t) (s : State) :
  exists entries : list WordLog.t,
    logs (processImplicitSplit E ctx s) = logs s ++ entries /\
    length entries = length (SuggestionContext.words ctx) /\
    outcome <$> entries =
      imap (fun idx word =>
              (word, SuggestionContext.category ctx,
               match idx with 0 => 0.5%float | 1 => 0.4%float | _ => 0.1%float end,
               implicit_split))
        (SuggestionContext.words ctx).
Proof.
  eexists. split; [apply processImplicitSplit_logs|]. split.
  - apply splitEntries_length.
  - rewrite splitEntries_outcome. apply imap_ext. intros i w _. reflexivity.
Qed.

(** ** Arrival of a suggestion set *)

Section Arrival.

Variable E : Env.

Lemma onSuggestions_logs words category s :
  logs (onSuggestions E words category s) =
  match suggestionCtxRef s with
  | Some prev =>
      logs s ++ splitEntries E (SuggestionContext.category prev)
                  (uuidCalls s) (nowCalls s) 0 (SuggestionContext.words prev)
  | None => logs s
  end.
Proof.
  unfold onSuggestions. destruct (suggestionCtxRef s) as [prev|]; simpl.
  - apply processImplicitSplit_logs.
  - reflexivity.
Qed.

Lemma onSuggestions_cells words category s :
  (exists timestamp,
     suggestionCtx (onSuggestions E words category s) =
     Some {| SuggestionContext.words := words;
             SuggestionContext.category := category;
             SuggestionContext.timestamp := timestamp |}) /\
  suggestionCtxRef (onSuggestions E words category s) = suggestionCtxRef s.
Proof.
  unfold onSuggestions. split; [eexists; reflexivity|].
  destruct (suggestionCtxRef s) as [prev|] eqn:Href; simpl; [|assumption].
  destruct (processImplicitSplit_cells E prev s) as [_ ->]. assumption.
Qed.

(** An arrival in a rendered state showing a set of three words: the three
    words are logged in order under the shown category, then the new set
    becomes the context. *)
Lemma onSuggestions_supersedes words category s prev w0 w1 w2 :
  suggestionCtx s = Some prev -> settled s ->
  SuggestionContext.words prev = [w0; w1; w2] ->
  exists entries timestamp,
    logs (onSuggestions E words category s) = logs s ++ entries /\
    outcome <$> entries =
      [ (w0, SuggestionContext.category prev, 0.5%float, implicit_split);
        (w1, SuggestionContext.category prev, 0.4%float, implicit_split);
        (w2, SuggestionContext.category prev, 0.1%float, implicit_split) ] /\
    suggestionCtx (onSuggestions E words category s) =
      Some {| SuggestionContext.words := words;
              SuggestionContext.category := category;
              SuggestionContext.timestamp := timestamp |}.
Proof.
  intros Hctx Hsettled Hwords. red in Hsettled. rewrite Hctx in Hsettled.
  destruct (onSuggestions_cells words category s) as [[ts Hts] _].
  eexists; exists ts. rewrite onSuggestions_logs, Hsettled.
  split; [reflexivity|]. split; [|exact Hts].
  rewrite splitEntries_outcome, Hwords. reflexivity.
Qed.

(** Two arrivals with no render in between: the second reads the ref as
    the first found it, so the first set is replaced without any entry. *)
Lemma onSuggestions_back_to_back wordsA categoryA wordsB categoryB s :
  suggestionCtxRef s = None ->
  logs (onSuggestions E wordsB categoryB (onSuggestions E wordsA categoryA s)) = logs s.
Proof.
  intros Href. rewrite onSuggestions_logs.
  destruct (onSuggestions_cells wordsA categoryA s) as [_ ->].
  rewrite Href, onSuggestions_logs, Href. reflexivity.
Qed.

(** Arrivals with a render between them: every set that is replaced, the
    one shown at the start included, gets the entries of its implicit split,
    in order of arrival; the last set stays pending. *)
Lemma arrivals_rendered sets : forall s prev,
  suggestionCtx s = Some prev -> settled s ->
  outcome <$> logs (arrivals E sets s) =
  (outcome <$> logs s) ++
  concat (splitOutcomes <$>
            removelast ((SuggestionContext.words prev, SuggestionContext.category prev)
                          :: sets)).
Proof.
  induction sets as [|[words category] sets IH]; intros s prev Hctx Hsettled.
  - simpl. now rewrite app_nil_r.
  - change (arrivals E ((words, category) :: sets) s)
      with (arrivals E sets (commit (onSuggestions E words category s))).
    destruct (onSuggestions_cells words category s) as [[ts Hts] _].
    rewrite (IH _ {| SuggestionContext.words := words;
                     SuggestionContext.category := category;
                     SuggestionContext.timestamp := ts |}); [|exact Hts|reflexivity].
    change (logs (commit (onSuggestions E words category s)))
      with (logs (onSuggestions E words category s)).
    red in Hsettled. rewrite onSuggestions_logs, Hsettled, Hctx.
    rewrite fmap_app, splitEntries_outcome, <- app_assoc. reflexivity.
Qed.

End Arrival.

(** C1 (the code departs from it): a tool-call message carrying two
    suggestion sets reaches a running session with nothing suggested yet.
    The first set (dog, cat, fox under Animals) is replaced by the second
    with no log entry at all, and after the next render a third arrival
    logs the second set only: the superseded first set never gets its
    three implicit-split entries. *)
Theorem superseded_set_without_entries :
  let s1 := onmessage Sample.env 0 Sample.twoSets Sample.listening in
  let s2 := onSuggestions Sample.env ["tea"; "milk"; "juice"] "Drinks" (commit s1) in
  logs Sample.listening = [] /\
  logs s1 = [] /\
  SuggestionContext.words <$> suggestionCtx s1 = Some ["car"; "bus"; "van"] /\
  outcome <$> logs s2 =
    [ ("car", "Vehicles", 0.5%float, implicit_split);
      ("bus", "Vehicles", 0.4%float, implicit_split);
      ("van", "Vehicles", 0.1%float, implicit_split) ].
Proof. vm_compute. repeat split; reflexivity. Qed.

(** ** Explicit resolution: voice confirmation and manual tap *)

Section Confirmation.

Variable E : Env.
Hypothesis frame : showConfirmation_frame E.

Lemma onConfirmedWord_logs word s :
  logs (onConfirmedWord E word s) =
  logs s ++ [ confirmedEntry E s word
                (JS.or_string (option_map SuggestionContext.category (suggestionCtxRef s))
                   "General")
                voice_confirmed ].
Proof using frame.
  unfold onConfirmedWord. destruct (frame word
    (setInterimTranscript ""
       (setFinalTranscript (fun _ => "")
          (setSuggestionCtx None
             (addLog E word
                (JS.or_string (option_map SuggestionContext.category (suggestionCtxRef s))
                   "General") 1.0%float voice_confirmed s))))) as (-> & _).
  simpl. apply addLog_logs.
Qed.

Lemma onConfirmedWord_clears word s :
  suggestionCtx (onConfirmedWord E word s) = None.
Proof using frame.
  unfold onConfirmedWord. destruct (frame word
    (setInterimTranscript ""
       (setFinalTranscript (fun _ => "")
          (setSuggestionCtx None
             (addLog E word
                (JS.or_string (option_map SuggestionContext.category (suggestionCtxRef s))
                   "General") 1.0%float voice_confirmed s))))) as (_ & -> & _).
  reflexivity.
Qed.

Lemma handleManualSelect_logs word index s :
  logs (handleManualSelect E word index s) =
  match suggestionCtx s with
  | Some ctx =>
      logs s ++ [confirmedEntry E s word (SuggestionContext.category ctx) manual_click]
  | None => logs s
  end.
Proof.
  unfold handleManualSelect, handleManualSelect_with.
  destruct (suggestionCtx s); [|reflexivity].
  cbn [logs setSuggestionCtx]. apply addLog_logs.
Qed.

Lemma handleManualSelect_clears word index s :
  suggestionCtx (handleManualSelect E word index s) = None.
Proof.
  unfold handleManualSelect, handleManualSelect_with.
  destruct (suggestionCtx s) eqn:H; [reflexivity|assumption].
Qed.

End Confirmation.

(** C2, as amended: in a rendered state showing the context [ctx], an
    explicit confirmation of any word produces exactly one log entry and
    clears the context.  By voice the entry carries the word, weight 1.0,
    method [voice_confirmed] and the context's category, or ["General"] when
    that category is the empty string; by tap it carries the word, weight
    1.0, method [manual_click] and the context's category as it is. *)
Theorem explicit_confirmation_logs_once (E : Env) (s : State)
    (ctx : SuggestionContext.t) (word : string) (index : nat) :
  showConfirmation_frame E ->
  suggestionCtx s = Some ctx -> settled s ->
  (exists e,
     logs (onConfirmedWord E word s) = logs s ++ [e] /\
     outcome e =
       (word,
        if String.eqb (SuggestionContext.category ctx) ""
        then "General" else SuggestionContext.category ctx,
        1.0%float, voice_confirmed) /\
     suggestionCtx (onConfirmedWord E word s) = None) /\
  (exists e,
     logs (handleManualSelect E word index s) = logs s ++ [e] /\
     outcome e = (word, SuggestionContext.category ctx, 1.0%float, manual_click) /\
     suggestionCtx (handleManualSelect E word index s) = None).
Proof.
  intros frame Hctx Hsettled. red in Hsettled. rewrite Hctx in Hsettled. split.
  - eexists. split; [apply onConfirmedWord_logs; exact frame|]. split.
    + rewrite Hsettled. unfold outcome, JS.or_string, JS.truthy_string; simpl.
      destruct (String.eqb (SuggestionContext.category ctx) ""); reflexivity.
    + apply onConfirmedWord_clears; exact frame.
  - eexists. split; [rewrite handleManualSelect_logs, Hctx; reflexivity|]. split.
    + reflexivity.
    + apply handleManualSelect_clears.
Qed.

Lemma sample_frame : showConfirmation_frame Sample.env.
Proof. intros w s. repeat split; reflexivity. Qed.

Lemma explicit_confirmation_logs_once_witness :
  (exists e,
     logs (onConfirmedWord Sample.env "cat" (Sample.showing Sample.animals)) =
       logs (Sample.showing Sample.animals) ++ [e] /\
     outcome e = ("cat", "Animals", 1.0%float, voice_confirmed) /\
     suggestionCtx (onConfirmedWord Sample.env "cat" (Sample.showing Sample.animals)) = None) /\
  (exists e,
     logs (handleManualSelect Sample.env "cat" 1 (Sample.showing Sample.animals)) =
       logs (Sample.showing Sample.animals) ++ [e] /\
     outcome e = ("cat", "Animals", 1.0%float, manual_click) /\
     suggestionCtx (handleManualSelect Sample.env "cat" 1 (Sample.showing Sample.animals)) = None).
Proof.
  apply (explicit_confirmation_logs_once Sample.env (Sample.showing Sample.animals)
           Sample.animals "cat" 1).
  - exact sample_frame.
  - reflexivity.
  - reflexivity.
Defined.

(** C2 as stated fails for a voice confirmation when the shown context has
    the empty string as its category: the premises hold, the word is one of
    the context's words, and the single entry logged carries ["General"],
    which is not the context's category. *)
Lemma voice_confirmation_empty_category :
  let s := Sample.showing Sample.uncategorised in
  showConfirmation_frame Sample.env /\
  suggestionCtx s = Some Sample.uncategorised /\
  settled s /\
  In "dog" (SuggestionContext.words Sample.uncategorised) /\
  outcome <$> logs (onConfirmedWord Sample.env "dog" s) =
    [("dog", "General", 1.0%float, voice_confirmed)] /\
  ~ (exists e,
       logs (onConfirmedWord Sample.env "dog" s) = logs s ++ [e] /\
       WordLog.category e = SuggestionContext.category Sample.uncategorised).
Proof.
  simpl. split; [exact sample_frame|].
  split; [reflexivity|]. split; [reflexivity|]. split; [now left|].
  split; [reflexivity|].
  intros (e & Hlogs & Hcat). vm_compute in Hlogs.
  injection Hlogs as <-. vm_compute in Hcat. discriminate Hcat.
Qed.

(** With no context in the ref the callback reads, a voice confirmation
    logs the word under ["General"], whatever the word and whatever the
    state cell holds. *)
Lemma onConfirmedWord_without_ref (E : Env) (s : State) (word : string) :
  showConfirmation_frame E ->
  suggestionCtxRef s = None ->
  exists e,
    logs (onConfirmedWord E word s) = logs s ++ [e] /\
    outcome e = (word, "General", 1.0%float, voice_confirmed).
Proof.
  intros frame Href.
  eexists. split; [apply onConfirmedWord_logs; exact frame|].
  rewrite Href. reflexivity.
Qed.

(** C8 (the code departs from it): in a running session the set dog, cat,
    fox is on screen under Animals.  A voice confirmation of "dog" arrives
    and resolves it, so that no suggestion context is active any more.  A
    second voice confirmation, of "chair", arrives before the effect of
    lines 31-33 has run again: its entry carries the category Animals of the
    context already resolved, not General.  Had the effect run in between,
    the entry would carry General. *)
Theorem voice_confirmation_reads_resolved_context :
  let s1 := onmessage Sample.env 0
              (Sample.calling (Sample.confirmSelection "call-2" "dog")) Sample.suggested in
  let s2 := onmessage Sample.env 0
              (Sample.calling (Sample.confirmSelection "call-3" "chair")) s1 in
  let s2' := onmessage Sample.env 0
               (Sample.calling (Sample.confirmSelection "call-3" "chair")) (commit s1) in
  SuggestionContext.words <$> suggestionCtx Sample.suggested = Some ["dog"; "cat"; "fox"] /\
  suggestionCtx s1 = None /\
  outcome <$> logs s1 = [ ("dog", "Animals", 1.0%float, voice_confirmed) ] /\
  outcome <$> logs s2 =
    [ ("dog", "Animals", 1.0%float, voice_confirmed);
      ("chair", "Animals", 1.0%float, voice_confirmed) ] /\
  outcome <$> logs s2' =
    [ ("dog", "Animals", 1.0%float, voice_confirmed);
      ("chair", "General", 1.0%float, voice_confirmed) ].
Proof. vm_compute. repeat split; reflexivity. Qed.

(** ** Stopping and skipping *)

(** [disconnect()] is its part before the first [await] followed by its
    part after it. *)
Lemma disconnect_in_two (g : Gemini.t) :
  Gemini.disconnect_end (Gemini.disconnect_begin g) = Gemini.disconnect g.
Proof. reflexivity. Qed.

Section Stop.

Variable E : Env.

(** The whole handler, left alone during its [await], is the part after
    the [await] run on a state with the service dropped. *)
Lemma handleStopSession_with_rest captured s :
  handleStopSession_with E captured s =
  handleStopSession_rest E captured (set_geminiRef None s).
Proof.
  unfold handleStopSession_with, handleStopSession_resume, handleStopSession_call.
  destruct s as [r c l sr e f i m g sp cr cw dw u n]; cbn.
  destruct g; reflexivity.
Qed.

(** What the part of the handler after its [await] logs is decided by the
    context it closed over, not by the state it finds. *)
Lemma handleStopSession_rest_logs captured s :
  logs (handleStopSession_rest E captured s) =
  logs s ++
  match captured with
  | Some ctx =>
      splitEntries E (SuggestionContext.category ctx)
        (uuidCalls s) (nowCalls s) 0 (SuggestionContext.words ctx)
  | None => []
  end.
Proof.
  unfold handleStopSession_rest.
  destruct (speechRef s); simpl; destruct captured as [ctx|]; simpl;
    rewrite ?app_nil_r; try reflexivity;
    match goal with
    | |- logs (processImplicitSplit E ?c ?x) = _ => exact (processImplicitSplit_logs E c x)
    end.
Qed.


Lemma handleStopSession_logs s :
  logs (handleStopSession E s) =
  match suggestionCtx s with
  | Some ctx =>
      logs s ++ splitEntries E (SuggestionContext.category ctx)
                  (uuidCalls s) (nowCalls s) 0 (SuggestionContext.words ctx)
  | None => logs s
  end.
Proof.
  unfold handleStopSession.
  rewrite handleStopSession_with_rest, handleStopSession_rest_logs.
  destruct (suggestionCtx s); [reflexivity|]. cbn. apply app_nil_r.
Qed.

(** In a rendered state, with nothing arriving during the [await], stopping
    logs what the arrival of a new set logs. *)
Lemma stop_rendered_as_supersession ctx words category s :
  suggestionCtx s = Some ctx -> settled s ->
  logs (handleStopSession E s) = logs (onSuggestions E words category s).
Proof.
  intros Hctx Hsettled. red in Hsettled.
  rewrite handleStopSession_logs, onSuggestions_logs.
  rewrite Hsettled, Hctx. reflexivity.
Qed.

End Stop.

(** C3 (the code departs from it): the Stop button reads the [suggestionCtx]
    of the render that drew it, and waits for [disconnect()] before it
    splits.  The set dog, cat, fox is on screen in a running session and Stop
    is pressed.  (1) While [disconnect()] is awaited the set car, bus, van
    arrives: the arrival splits dog, cat, fox, the resumed handler splits
    them a second time, and car, bus, van, the set pending when the handler
    clears the context, gets no entry.  (2) While [disconnect()] is awaited
    a voice confirmation of "dog" arrives instead: nothing is pending when
    the handler resumes, and it still logs the three implicit-split
    entries.  (3) Stop pressed in a render that shows nothing, the set
    having arrived since: nothing is logged and the set stays pending. *)
Theorem stop_reads_render_context :
  let captured := suggestionCtx Sample.suggested in
  let waiting := handleStopSession_call Sample.suggested in
  let arrived :=
    onmessage Sample.env 0
      (Sample.calling (Sample.provideSuggestions "call-2" ["car"; "bus"; "van"] "Vehicles"))
      waiting in
  let confirmed :=
    onmessage Sample.env 0 (Sample.calling (Sample.confirmSelection "call-2" "dog")) waiting in
  let unrendered :=
    onmessage Sample.env 0
      (Sample.calling (Sample.provideSuggestions "call-1" ["dog"; "cat"; "fox"] "Animals"))
      Sample.listening in
  (SuggestionContext.words <$> captured = Some ["dog"; "cat"; "fox"] /\
   logs Sample.suggested = []) /\
  (SuggestionContext.words <$> suggestionCtx arrived = Some ["car"; "bus"; "van"] /\
   outcome <$> logs (handleStopSession_resume Sample.env captured arrived) =
     [ ("dog", "Animals", 0.5%float, implicit_split);
       ("cat", "Animals", 0.4%float, implicit_split);
       ("fox", "Animals", 0.1%float, implicit_split);
       ("dog", "Animals", 0.5%float, implicit_split);
       ("cat", "Animals", 0.4%float, implicit_split);
       ("fox", "Animals", 0.1%float, implicit_split) ] /\
   suggestionCtx (handleStopSession_resume Sample.env captured arrived) = None) /\
  (suggestionCtx confirmed = None /\
   outcome <$> logs (handleStopSession_resume Sample.env captured confirmed) =
     [ ("dog", "Animals", 1.0%float, voice_confirmed);
       ("dog", "Animals", 0.5%float, implicit_split);
       ("cat", "Animals", 0.4%float, implicit_split);
       ("fox", "Animals", 0.1%float, implicit_split) ]) /\
  (suggestionCtx Sample.listening = None /\
   SuggestionContext.words <$> suggestionCtx unrendered = Some ["dog"; "cat"; "fox"] /\
   logs (handleStopSession_with Sample.env (suggestionCtx Sample.listening) unrendered) = [] /\
   SuggestionContext.words <$>
     suggestionCtx (handleStopSession_with Sample.env (suggestionCtx Sample.listening)
                      unrendered) = Some ["dog"; "cat"; "fox"]).
Proof. vm_compute. repeat split; reflexivity. Qed.

(** C4: in every state, skipping leaves the logs list as it is and clears
    the suggestion context, and every other cell, ref and request list is
    unchanged. *)
Theorem handleSkip_only_clears (s : State) :
  logs (handleSkip s) = logs s /\
  suggestionCtx (handleSkip s) = None /\
  handleSkip s =
    {| isRecording := isRecording s;
       suggestionCtx := None;
       logs := logs s;
       showReport := showReport s;
       error := error s;
       finalTranscript := finalTranscript s;
       interimTranscript := interimTranscript s;
       confirmationMessage := confirmationMessage s;
       geminiRef := geminiRef s;
       speechRef := speechRef s;
       suggestionCtxRef := suggestionCtxRef s;
       cloudWrites := cloudWrites s;
       dbWrites := dbWrites s;
       uuidCalls := uuidCalls s;
       nowCalls := nowCalls s |}.
Proof.
  unfold handleSkip, handleSkip_with.
  destruct s as [r c l sr e f i m g sp cr cw dw u n]; simpl.
  destruct c; repeat split; reflexivity.
Qed.

(** ** Playback scheduling *)

(** *** Rounding to nearest never undershoots a representable lower bound *)

Section Rounding.

Import SpecFloat Binary64.

Local Open Scope Z_scope.

Lemma digits_size m : digits2_pos m = Pos.size m.
Proof. induction m; simpl; congruence. Qed.

Lemma digits_bounds m : 2 ^ (digits m - 1) <= Zpos m < 2 ^ digits m.
Proof.
  unfold digits. rewrite digits_size. split.
  - pose proof (Pos.size_le m) as H.
    assert (Hs : (2 ^ Pos.size m <= m~0)%positive) by exact H.
    change (m~0)%positive with (2 * m)%positive in Hs.
    assert (Hz : 2 ^ Zpos (Pos.size m) <= 2 * Zpos m).
    { rewrite <- Pos2Z.inj_pow. change (2 * Z.pos m) with (Z.pos (2 * m)). 
      apply Pos2Z.pos_le_pos. exact Hs. }
    replace (Zpos (Pos.size m)) with (Z.succ (Zpos (Pos.size m) - 1)) in Hz by lia.
    rewrite Z.pow_succ_r in Hz by lia. lia.
  - pose proof (Pos.size_gt m) as H.
    rewrite <- Pos2Z.inj_pow. apply Pos2Z.pos_lt_pos. exact H.
Qed.

Lemma digits_pos m : 1 <= digits m.
Proof. unfold digits. lia. Qed.

Lemma digits_le (a b : positive) k :
  0 <= k -> Zpos a * 2 ^ k <= Zpos b -> digits a + k <= digits b.
Proof.
  intros Hk H.
  destruct (digits_bounds a) as [Ha _]. destruct (digits_bounds b) as [_ Hb].
  pose proof (digits_pos a) as Hpa.
  assert (Hlt : 2 ^ (digits a - 1 + k) < 2 ^ digits b).
  { rewrite Z.pow_add_r by lia.
    assert (2 ^ (digits a - 1) * 2 ^ k <= Zpos a * 2 ^ k).
    { apply Z.mul_le_mono_nonneg_r; [apply Z.pow_nonneg; lia | exact Ha]. }
    lia. }
  pose proof (digits_pos b) as Hpb.
  apply (Z.pow_lt_mono_r_iff 2) in Hlt; lia.
Qed.

Lemma fexp_eq e : fexp FloatOps.prec FloatOps.emax e = fexp64 e.
Proof. reflexivity. Qed.

Lemma iter_xO m p : Zpos (Pos.iter xO m p) = Zpos m * 2 ^ Zpos p.
Proof.
  rewrite Pos2Z.inj_pow_pos || idtac.
  revert m. induction p using Pos.peano_ind; intros m.
  - simpl. lia.
  - rewrite Pos.iter_succ. rewrite Pos2Z.inj_succ, Z.pow_succ_r by lia.
    change (Zpos (Pos.iter xO m p)~0) with (2 * Zpos (Pos.iter xO m p)).
    rewrite IHp. lia.
Qed.

Lemma shl_align_spec mx ex ex' :
  let '(m', e') := shl_align mx ex ex' in
  e' = Z.min ex ex' /\ Zpos m' = Zpos mx * 2 ^ (ex - e').
Proof.
  unfold shl_align. destruct (ex' - ex) as [|d|d] eqn:Hd.
  - split; [lia|]. replace (ex - ex) with 0 by lia. simpl. lia.
  - split; [lia|]. replace (ex - ex) with 0 by lia. simpl. lia.
  - split; [lia|]. rewrite iter_xO. f_equal. f_equal. lia.
Qed.

Lemma shr_1_m mrs : 0 <= shr_m mrs -> shr_m (shr_1 mrs) = shr_m mrs / 2.
Proof.
  destruct mrs as [m r s]. cbn [shr_m]. intros Hm.
  destruct m as [|[p|p|]|p]; cbn [shr_1 shr_m]; try lia.
  - reflexivity.
  - apply Z.div_unique with 1; lia.
  - apply Z.div_unique with 0; lia.
  - reflexivity.
Qed.

Lemma div_pow2_nonneg a k : 0 <= a -> 0 <= k -> 0 <= a / 2 ^ k.
Proof. intros. apply Z.div_pos; [assumption | apply Z.pow_pos_nonneg; lia]. Qed.

Lemma iter_shr_1_m p : forall mrs,
  0 <= shr_m mrs -> shr_m (iter_pos shr_1 p mrs) = shr_m mrs / 2 ^ Zpos p.
Proof.
  induction p as [p IH|p IH|]; intros mrs Hm; cbn [iter_pos].
  - assert (H1 : 0 <= shr_m (shr_1 mrs)).
    { rewrite shr_1_m by assumption. apply Z.div_pos; lia. }
    assert (H2 : 0 <= shr_m (iter_pos shr_1 p (shr_1 mrs))).
    { rewrite IH by assumption. apply div_pow2_nonneg; lia. }
    rewrite IH, IH, shr_1_m by assumption.
    rewrite !Z.div_div by (try lia; apply Z.pow_pos_nonneg; lia).
    f_equal. change 2 with (2 ^ 1) at 1. rewrite <- !Z.pow_add_r by lia. f_equal. lia.
  - assert (H2 : 0 <= shr_m (iter_pos shr_1 p mrs)).
    { rewrite IH by assumption. apply div_pow2_nonneg; lia. }
    rewrite IH, IH by assumption.
    rewrite !Z.div_div by (try lia; apply Z.pow_pos_nonneg; lia).
    f_equal. rewrite <- Z.pow_add_r by lia. f_equal. lia.
  - rewrite shr_1_m by assumption. reflexivity.
Qed.

(** [shr_fexp] on a positive mantissa whose exponent is not above the
    canonical one: the exponent becomes canonical and the mantissa is
    divided accordingly. *)
Lemma shr_fexp_spec (m : positive) e l :
  e <= fexp64 (digits m + e) ->
  let '(mrs, e') := shr_fexp FloatOps.prec FloatOps.emax (Zpos m) e l in
  e' = fexp64 (digits m + e) /\ shr_m mrs = Zpos m / 2 ^ (e' - e).
Proof.
  intros He. unfold shr_fexp, shr. rewrite fexp_eq. cbn [Zdigits2]. fold (digits m).
  destruct (fexp64 (digits m + e) - e) as [|p|p] eqn:Hn.
  - split; [lia|]. replace (e - e) with 0 by lia.
    destruct l as [|[]]; simpl; now rewrite Z.div_1_r.
  - split; [lia|]. rewrite iter_shr_1_m by (destruct l as [|[]]; simpl; lia).
    replace (e + Zpos p - e) with (Zpos p) by lia.
    destruct l as [|[]]; reflexivity.
  - lia.
Qed.

Lemma shifted_mantissa (q : positive) e :
  (-1074) <= e -> e <= fexp64 (digits q + e) ->
  0 < Zpos q / 2 ^ (fexp64 (digits q + e) - e) /\
  ((-1074) < fexp64 (digits q + e) ->
   2 ^ 52 <= Zpos q / 2 ^ (fexp64 (digits q + e) - e)).
Proof.
  intros He Hf. destruct (digits_bounds q) as [Hq _].
  assert (Hbig : (-1074) < fexp64 (digits q + e) ->
                 2 ^ 52 <= Zpos q / 2 ^ (fexp64 (digits q + e) - e)).
  { intros Hgt. unfold fexp64 in *.
    assert (Hk : Z.max (digits q + e - 53) (-1074) - e = digits q - 53) by lia.
    rewrite Hk. apply Z.div_le_lower_bound; [apply Z.pow_pos_nonneg; lia|].
    rewrite <- Z.pow_add_r by lia.
    replace (digits q - 53 + 52) with (digits q - 1) by lia. exact Hq. }
  split; [|exact Hbig].
  destruct (Z.eq_dec (fexp64 (digits q + e)) e) as [Heq|Hne].
  - rewrite Heq, Z.sub_diag. simpl. rewrite Z.div_1_r. lia.
  - assert (Hgt : -1074 < fexp64 (digits q + e)) by lia.
    specialize (Hbig Hgt). assert (0 < 2 ^ 52) by (apply Z.pow_pos_nonneg; lia). lia.
Qed.

Lemma digits_ge_53 (p : positive) : 2 ^ 52 <= Zpos p -> 53 <= digits p.
Proof.
  intros H. destruct (digits_bounds p) as [_ Hp]. pose proof (digits_pos p) as Hpp.
  assert (Hlt : 2 ^ 52 < 2 ^ digits p) by lia.
  apply (Z.pow_lt_mono_r_iff 2) in Hlt; lia.
Qed.

Lemma round_nearest_even_bounds m l :
  m <= round_nearest_even m l <= m + 1.
Proof.
  unfold round_nearest_even. destruct l as [|[]]; try lia.
  destruct (Z.even m); lia.
Qed.

(** Rounding a positive value that is not below a representable [x] gives
    a float that is not below [x] in the order [SFcompare] uses. *)
Lemma binary_round_aux_ge (mz : positive) (ez : Z) (mx : positive) (ex : Z) :
  (-1074) <= ez -> ez <= fexp64 (digits mz + ez) ->
  fexp64 (digits mx + ex) = ex ->
  ez <= ex -> Zpos mx * 2 ^ (ex - ez) <= Zpos mz ->
  match binary_round_aux FloatOps.prec FloatOps.emax false (Zpos mz) ez loc_Exact with
  | S754_infinity false => True
  | S754_finite false m e => ex < e \/ (e = ex /\ Zpos mx <= Zpos m)
  | _ => False
  end.
Proof.
  intros Hmin Hez Hx Hle Hval. unfold binary_round_aux.
  pose proof (shr_fexp_spec mz ez loc_Exact Hez) as H1.
  destruct (shr_fexp FloatOps.prec FloatOps.emax (Zpos mz) ez loc_Exact) as [mrs' e'].
  destruct H1 as [He' Hm'].
  destruct (shifted_mantissa mz ez Hmin Hez) as [Hpos Hbig].
  rewrite <- He' in Hpos, Hbig. rewrite <- Hm' in Hpos, Hbig.
  pose proof (round_nearest_even_bounds (shr_m mrs') (loc_of_shr_record mrs')) as Hr.
  destruct (round_nearest_even (shr_m mrs') (loc_of_shr_record mrs')) as [|p1|p1] eqn:Hp1;
    try lia.
  assert (HD : digits mx + ex <= digits mz + ez).
  { pose proof (digits_le mx mz (ex - ez) ltac:(lia) Hval). lia. }
  assert (Hee : ex <= e').
  { rewrite He', <- Hx. unfold fexp64. lia. }
  assert (Hmin' : (-1074) <= e') by (rewrite He'; unfold fexp64; lia).
  assert (He1 : e' <= fexp64 (digits p1 + e')).
  { destruct (Z.eq_dec e' (-1074)) as [->|Hne]; [unfold fexp64; lia|].
    assert (Hgt : (-1074) < e') by lia. specialize (Hbig Hgt).
    assert (53 <= digits p1) by (apply digits_ge_53; lia).
    unfold fexp64. lia. }
  pose proof (shr_fexp_spec p1 e' loc_Exact He1) as H2.
  destruct (shr_fexp FloatOps.prec FloatOps.emax (Zpos p1) e' loc_Exact) as [mrs'' e''].
  destruct H2 as [He'' Hm''].
  destruct (shifted_mantissa p1 e' Hmin' He1) as [Hpos2 _].
  rewrite <- He'' in Hpos2. rewrite <- Hm'' in Hpos2.
  destruct (shr_m mrs'') as [|m''|m''] eqn:Hmm; try lia.
  destruct (e'' <=? FloatOps.emax - FloatOps.prec); [|exact I].
  assert (Hee2 : e' <= e'') by (rewrite He''; exact He1).
  destruct (Z.eq_dec e'' ex) as [Heq|Hne]; [right|left; lia].
  split; [exact Heq|].
  assert (Hsame : e'' = e') by lia. subst e''.
  assert (Hex : e' = ex) by lia.
  rewrite Hsame, Z.sub_diag in Hm''. simpl in Hm''. rewrite Z.div_1_r in Hm''.
  rewrite Hm''.
  assert (Zpos mx <= shr_m mrs').
  { rewrite Hm'. apply Z.div_le_lower_bound; [apply Z.pow_pos_nonneg; lia|].
    rewrite Hex. lia. }
  lia.
Qed.

(** Order and addition on values not below zero. *)

Lemma valid_finite s m e :
  valid_binary FloatOps.prec FloatOps.emax (S754_finite s m e) = true ->
  fexp64 (digits m + e) = e /\ (-1074) <= e.
Proof.
  cbn [valid_binary]. unfold bounded, canonical_mantissa.
  intros H. apply andb_prop in H as [H _]. apply Z.eqb_eq in H.
  rewrite fexp_eq in H. unfold digits. split; [exact H|].
  rewrite <- H. unfold fexp64. lia.
Qed.

Lemma SFleb_refl x : SFleb (S754_zero false) x = true -> SFleb x x = true.
Proof.
  destruct x as [s|s| |s m e]; try destruct s; cbn; try discriminate; try reflexivity.
  intros _. unfold SFleb; cbn. rewrite Z.compare_refl, Pos.compare_refl. reflexivity.
Qed.

Lemma SFltb_leb x y : SFltb x y = true -> SFleb x y = true.
Proof. unfold SFltb, SFleb. destruct (SFcompare x y) as [[]|]; congruence. Qed.

Lemma SFeqb_leb x y : SFeqb x y = true -> SFleb x y = true.
Proof. unfold SFeqb, SFleb. destruct (SFcompare x y) as [[]|]; congruence. Qed.

Lemma SFleb_trans x y z :
  SFleb (S754_zero false) x = true -> SFleb x y = true -> SFleb y z = true -> SFleb x z = true.
Proof.
  unfold SFleb.
  destruct x as [sx|sx| |sx mx ex]; try destruct sx; cbn; try discriminate;
    destruct y as [sy|sy| |sy my ey]; try destruct sy; cbn; try discriminate;
    destruct z as [sz|sz| |sz mz ez]; try destruct sz; cbn; try discriminate;
    try reflexivity; intros _.
  destruct (Z.compare_spec ex ey), (Z.compare_spec ey ez), (Z.compare_spec ex ez);
    try discriminate; try reflexivity; try lia; subst.
  change (Pos.compare_cont Eq ?a ?b) with (Pos.compare a b).
  destruct (Pos.compare_spec mx my), (Pos.compare_spec my mz), (Pos.compare_spec mx mz);
    try discriminate; try reflexivity; try lia.
Qed.

Lemma SFadd_ge x d :
  valid_binary FloatOps.prec FloatOps.emax x = true -> valid_binary FloatOps.prec FloatOps.emax d = true ->
  SFleb (S754_zero false) x = true -> SFleb (S754_zero false) d = true ->
  SFleb x (SFadd FloatOps.prec FloatOps.emax x d) = true /\ SFleb (S754_zero false) (SFadd FloatOps.prec FloatOps.emax x d) = true.
Proof.
  intros Vx Vd Hx Hd.
  destruct x as [sx|sx| |sx mx ex]; try destruct sx; try discriminate Hx;
    destruct d as [sd|sd| |sd md ed]; try destruct sd; try discriminate Hd;
    try (split; reflexivity);
    try (cbn [SFadd]; split; [apply SFleb_refl; reflexivity | reflexivity]).
  cbn [SFadd cond_Zopp].
  destruct (valid_finite _ _ _ Vx) as [Cx Ex].
  destruct (valid_finite _ _ _ Vd) as [Cd Ed].
  set (ez := Z.min ex ed).
  pose proof (shl_align_spec mx ex ez) as Sx.
  pose proof (shl_align_spec md ed ez) as Sd.
  destruct (shl_align mx ex ez) as [mx' ex'].
  destruct (shl_align md ed ez) as [md' ed'].
  destruct Sx as [Ex' Mx']. destruct Sd as [Ed' Md']. cbn [fst].
  assert (Mx2 : Zpos mx' = Zpos mx * 2 ^ (ex - ez)).
  { rewrite Mx', Ex'. do 2 f_equal. subst ez. lia. }
  clear Ex' Mx' Ed' Md'.
  change (Zpos mx' + Zpos md') with (Zpos (mx' + md')).
  cbn [binary_normalize]. unfold binary_round.
  pose proof (shl_align_spec (mx' + md') ez
                (fexp FloatOps.prec FloatOps.emax (Zpos (digits2_pos (mx' + md')) + ez))) as Sz.
  destruct (shl_align (mx' + md') ez
              (fexp FloatOps.prec FloatOps.emax (Zpos (digits2_pos (mx' + md')) + ez))) as [mz ez'].
  destruct Sz as [Ez' Mz]. rewrite fexp_eq in Ez'.
  fold (digits (mx' + md')) in Ez'.
  assert (Hzmin : (-1074) <= ez').
  { rewrite Ez'. unfold fexp64. subst ez. lia. }
  assert (Hzle : ez' <= ez) by lia.
  assert (Hdig : digits (mx' + md') + ez <= digits mz + ez').
  { pose proof (digits_le (mx' + md') mz (ez - ez') ltac:(lia) ltac:(lia)). lia. }
  assert (Hfexp : ez' <= fexp64 (digits mz + ez')).
  { rewrite Ez' at 1. unfold fexp64. lia. }
  assert (Hval : Zpos mx * 2 ^ (ex - ez') <= Zpos mz).
  { rewrite Mz. replace (ex - ez') with ((ex - ez) + (ez - ez')) by lia.
    rewrite Z.pow_add_r by (subst ez; lia). rewrite Z.mul_assoc, <- Mx2.
    apply Z.mul_le_mono_nonneg_r; [apply Z.pow_nonneg; lia | lia]. }
  pose proof (binary_round_aux_ge mz ez' mx ex Hzmin Hfexp Cx ltac:(subst ez; lia) Hval) as R.
  destruct (binary_round_aux FloatOps.prec FloatOps.emax false (Zpos mz) ez' loc_Exact)
    as [s|s| |s m e]; try destruct s; try contradiction; split; try reflexivity.
  unfold SFleb; cbn.
  destruct R as [R|[-> R]].
  - apply Z.compare_lt_iff in R. rewrite R. reflexivity.
  - rewrite Z.compare_refl.
    change (Pos.compare_cont Eq mx m) with (Pos.compare mx m).
    destruct (Pos.compare_spec mx m); try reflexivity. lia.
Qed.

Lemma SFcompare_opp x y :
  SFleb (S754_zero false) x = true -> SFleb (S754_zero false) y = true ->
  SFcompare y x = option_map CompOpp (SFcompare x y).
Proof.
  destruct x as [sx|sx| |sx mx ex]; try destruct sx; cbn; try discriminate;
    destruct y as [sy|sy| |sy my ey]; try destruct sy; cbn; try discriminate;
    try reflexivity; intros _ _.
  rewrite (Z.compare_antisym ex ey).
  change (Pos.compare_cont Eq ?a ?b) with (Pos.compare a b).
  rewrite (Pos.compare_antisym mx my).
  destruct (ex ?= ey), (mx ?= my)%positive; reflexivity.
Qed.

End Rounding.

(** *** Order, addition and [Math.max] on floats not below zero *)

Section FloatOrder.

Import SpecFloat.

Local Open Scope float_scope.

Lemma Prim2SF_zero : Prim2SF 0 = (S754_zero false).
Proof. reflexivity. Qed.

Lemma leb_refl x : (0 <=? x) = true -> (x <=? x) = true.
Proof. rewrite !FloatAxioms.leb_spec, Prim2SF_zero. apply SFleb_refl. Qed.

Lemma leb_trans x y z :
  (0 <=? x) = true -> (x <=? y) = true -> (y <=? z) = true -> (x <=? z) = true.
Proof. rewrite !FloatAxioms.leb_spec, Prim2SF_zero. apply SFleb_trans. Qed.

Lemma add_ge x d :
  (0 <=? x) = true -> (0 <=? d) = true ->
  (x <=? x + d) = true /\ (0 <=? x + d) = true.
Proof.
  rewrite !FloatAxioms.leb_spec, FloatAxioms.add_spec, Prim2SF_zero.
  apply SFadd_ge; apply Prim2SF_valid.
Qed.

Lemma nonneg_not_nan x : (0 <=? x) = true -> is_nan x = false.
Proof.
  intros H. apply leb_refl in H. unfold is_nan.
  rewrite FloatAxioms.leb_spec in H. rewrite FloatAxioms.eqb_spec.
  unfold SFleb in H. unfold SFeqb.
  destruct (Prim2SF x) as [s|s| |s m e]; try destruct s; cbn in *; try discriminate;
    try reflexivity;
    rewrite Z.compare_refl, ?Pos.compare_refl in *; try reflexivity.
Qed.

(** Of two numbers not below zero, one is not above the other. *)
Lemma leb_cases x y :
  (0 <=? x) = true -> (0 <=? y) = true ->
  ((x <? y) = true /\ (x <=? y) = true) \/
  ((x <? y) = false /\ (x =? y) = true /\ (x <=? y) = true /\ (y <=? x) = true) \/
  ((x <? y) = false /\ (x =? y) = false /\ (y <=? x) = true).
Proof.
  rewrite !FloatAxioms.leb_spec, FloatAxioms.ltb_spec, FloatAxioms.eqb_spec, Prim2SF_zero. intros Hx Hy.
  pose proof (SFcompare_opp _ _ Hx Hy) as Hopp.
  unfold SFleb, SFltb, SFeqb in *. rewrite Hopp.
  destruct (Prim2SF x) as [sx|sx| |sx mx ex]; try destruct sx; try discriminate Hx;
    destruct (Prim2SF y) as [sy|sy| |sy my ey]; try destruct sy; try discriminate Hy;
    cbn; try tauto.
  destruct (Z.compare ex ey), (Pos.compare_cont Eq mx my); cbn; tauto.
Qed.

Lemma Math_max_ge x y :
  (0 <=? x) = true -> (0 <=? y) = true ->
  (x <=? JS.Math_max x y) = true /\ (y <=? JS.Math_max x y) = true /\
  (0 <=? JS.Math_max x y) = true.
Proof.
  intros Hx Hy. unfold JS.Math_max.
  rewrite (nonneg_not_nan x Hx), (nonneg_not_nan y Hy). cbn [orb].
  pose proof (leb_refl x Hx) as Hxx. pose proof (leb_refl y Hy) as Hyy.
  destruct (leb_cases x y Hx Hy) as [(-> & Hxy)|[(-> & -> & Hxy & Hyx)|(-> & -> & Hyx)]].
  - auto.
  - destruct (get_sign x); auto.
  - auto.
Qed.

End FloatOrder.

(** *** The cursor *)

Section Playback.

Import Gemini.

Local Open Scope float_scope.

Lemma playAudio_sync_cursor currentTime g :
  (0 <=? nextStartTime g) = true -> (0 <=? currentTime) = true ->
  (nextStartTime g <=? nextStartTime (playAudio_sync currentTime g)) = true /\
  (0 <=? nextStartTime (playAudio_sync currentTime g)) = true.
Proof.
  intros Hc Ht. unfold playAudio_sync.
  destruct (negb (outputAudioContext g) || negb (outputNode g)); cbn.
  - split; [apply leb_refl|]; exact Hc.
  - destruct (Math_max_ge (nextStartTime g) currentTime Hc Ht) as (H1 & _ & H2).
    split; assumption.
Qed.

Lemma playAudio_resume_cursor duration g :
  (0 <=? nextStartTime g) = true -> (0 <=? duration) = true ->
  (nextStartTime g <=? nextStartTime (playAudio_resume duration g)) = true /\
  (0 <=? nextStartTime (playAudio_resume duration g)) = true.
Proof.
  intros Hc Hd. unfold playAudio_resume. destruct (outputAudioContext g); cbn.
  - apply add_ge; assumption.
  - split; [apply leb_refl|]; exact Hc.
Qed.

(** Calls that interleave at the [await]: whatever the order of entries and
    resumptions, the cursor never moves back. *)
Lemma audio_run_monotone events : forall g,
  (0 <=? nextStartTime g) = true -> Forall nonnegative events ->
  (nextStartTime g <=? nextStartTime (audio_run events g)) = true /\
  (0 <=? nextStartTime (audio_run events g)) = true.
Proof.
  induction events as [|e events IH]; intros g Hc Hpos.
  - split; [apply leb_refl|]; exact Hc.
  - inversion Hpos as [|? ? He Hrest]; subst.
    assert (Hstep : (nextStartTime g <=? nextStartTime (audio_step e g)) = true /\
                    (0 <=? nextStartTime (audio_step e g)) = true).
    { destruct e as [currentTime | duration]; cbn [audio_step nonnegative] in *.
      - now apply playAudio_sync_cursor.
      - now apply playAudio_resume_cursor. }
    destruct Hstep as [Hle Hc'].
    destruct (IH (audio_step e g) Hc' Hrest) as [Hle' Hc''].
    change (audio_run (e :: events) g) with (audio_run events (audio_step e g)).
    split; [|exact Hc'']. exact (leb_trans _ _ _ Hc Hle Hle').
Qed.

Lemma audio_run_app earlier later g :
  audio_run (earlier ++ later) g = audio_run later (audio_run earlier g).
Proof. unfold audio_run. apply fold_left_app. Qed.

Lemma playAudio_ready currentTime duration g :
  outputAudioContext g = true -> outputNode g = true ->
  playAudio currentTime (Some duration) g =
  set_nextStartTime (JS.Math_max (nextStartTime g) currentTime + duration)
    (source_start (JS.Math_max (nextStartTime g) currentTime) duration
       (set_nextStartTime (JS.Math_max (nextStartTime g) currentTime) g)).
Proof.
  intros Hctx Hnode. unfold playAudio, playAudio_sync, playAudio_resume.
  rewrite Hctx, Hnode. cbn. rewrite Hctx. reflexivity.
Qed.

(** A whole call is its entry followed at once by its resumption. *)
Lemma playAudio_uninterrupted currentTime duration g :
  outputAudioContext g = true -> outputNode g = true ->
  playAudio currentTime (Some duration) g =
  audio_run [Call currentTime; Resume duration] g.
Proof.
  intros Hctx Hnode. unfold playAudio, audio_run. cbn.
  rewrite Hctx, Hnode. reflexivity.
Qed.

End Playback.

(** C5 as stated fails on the numbers the code computes.  Three chunks of
    0.04 s reach an open service one after the other, each call running to
    its end at clock reading 0.  The third is started at the cursor the
    second left, and the cursor it leaves is below that start plus the
    duration: it has not advanced by exactly the chunk's duration, and a
    chunk started at it begins before the third one ends. *)
Lemma playAudio_cursor_rounds :
  Gemini.outputAudioContext Scenario.twoChunks = true /\
  Gemini.outputNode Scenario.twoChunks = true /\
  Gemini.started Scenario.threeChunks =
    (Gemini.nextStartTime Scenario.twoChunks, Scenario.chunk)
    :: Gemini.started Scenario.twoChunks /\
  (exists start duration cursor,
     Binary64.exact (Gemini.nextStartTime Scenario.twoChunks) = Some start /\
     Binary64.exact Scenario.chunk = Some duration /\
     Binary64.exact (Gemini.nextStartTime Scenario.threeChunks) = Some cursor /\
     (cursor < start + duration)%Q) /\
  ~ advanced_exactly (Gemini.nextStartTime Scenario.twoChunks) Scenario.chunk
      (Gemini.nextStartTime Scenario.threeChunks) /\
  ~ sequential Scenario.threeChunks.
Proof.
  split; [reflexivity|]. split; [reflexivity|].
  split; [reflexivity|]. split; [|split].
  - do 3 eexists. split; [lazy; reflexivity|]. split; [lazy; reflexivity|].
    split; [lazy; reflexivity|]. reflexivity.
  - intros H. lazy in H. discriminate H.
  - intros H. lazy in H. destruct H as [H _]. apply H. reflexivity.
Qed.

(** C5, as amended.  On a service whose cursor is not below zero, for clock
    readings and buffer durations not below zero, and whatever the order in
    which calls enter and resume at the [await]: the cursor never moves
    back.  A call that then runs to its end on an open service starts its
    chunk at [Math.max] of the cursor and the clock reading, which is below
    neither, and leaves the cursor at the binary64 sum of that start and the
    chunk's duration, which is not below the start. *)
Theorem playAudio_cursor_schedule (g : Gemini.t) (earlier later : list Gemini.AudioEvent)
    (currentTime duration : float) :
  (0 <=? Gemini.nextStartTime g)%float = true ->
  Forall nonnegative earlier -> Forall nonnegative later ->
  (0 <=? currentTime)%float = true -> (0 <=? duration)%float = true ->
  let g1 := Gemini.audio_run earlier g in
  let g2 := Gemini.playAudio currentTime (Some duration) g1 in
  let start := JS.Math_max (Gemini.nextStartTime g1) currentTime in
  (Gemini.nextStartTime g <=? Gemini.nextStartTime g1)%float = true /\
  (Gemini.nextStartTime g1 <=?
     Gemini.nextStartTime (Gemini.audio_run (earlier ++ later) g))%float = true /\
  (Gemini.outputAudioContext g1 = true -> Gemini.outputNode g1 = true ->
   Gemini.started g2 = (start, duration) :: Gemini.started g1 /\
   Gemini.nextStartTime g2 = (start + duration)%float /\
   (Gemini.nextStartTime g1 <=? start)%float = true /\
   (currentTime <=? start)%float = true /\
   (start <=? Gemini.nextStartTime g2)%float = true /\
   (Gemini.nextStartTime g1 <=? Gemini.nextStartTime g2)%float = true).
Proof.
  intros Hc Hearlier Hlater Ht Hd g1 g2 start.
  destruct (audio_run_monotone earlier g Hc Hearlier) as [Hle1 Hc1]. fold g1 in Hle1, Hc1.
  rewrite audio_run_app. fold g1.
  destruct (audio_run_monotone later g1 Hc1 Hlater) as [Hle2 _].
  split; [exact Hle1|]. split; [exact Hle2|].
  intros Hctx Hnode. subst g2.
  rewrite (playAudio_ready currentTime duration g1 Hctx Hnode). cbn. fold start.
  destruct (Math_max_ge (Gemini.nextStartTime g1) currentTime Hc1 Ht) as (Hm1 & Hm2 & Hm3).
  fold start in Hm1, Hm2, Hm3.
  destruct (add_ge start duration Hm3 Hd) as [Ha _].
  repeat apply conj; try assumption; try reflexivity.
  exact (leb_trans _ _ _ Hc1 Hm1 Ha).
Qed.

Lemma playAudio_cursor_schedule_witness :
  let g := Sample.connected in
  let earlier := [Gemini.Call 0; Gemini.Call 0.1; Gemini.Resume 0.5; Gemini.Resume 0.25]%float in
  let later := [Gemini.Call 0.2; Gemini.Resume 0.04]%float in
  let g1 := Gemini.audio_run earlier g in
  let g2 := Gemini.playAudio 0.3 (Some 0.04%float) g1 in
  let start := JS.Math_max (Gemini.nextStartTime g1) 0.3 in
  (Gemini.nextStartTime g <=? Gemini.nextStartTime g1)%float = true /\
  (Gemini.nextStartTime g1 <=?
     Gemini.nextStartTime (Gemini.audio_run (earlier ++ later) g))%float = true /\
  (Gemini.outputAudioContext g1 = true -> Gemini.outputNode g1 = true ->
   Gemini.started g2 = (start, 0.04%float) :: Gemini.started g1 /\
   Gemini.nextStartTime g2 = (start + 0.04)%float /\
   (Gemini.nextStartTime g1 <=? start)%float = true /\
   (0.3 <=? start)%float = true /\
   (start <=? Gemini.nextStartTime g2)%float = true /\
   (Gemini.nextStartTime g1 <=? Gemini.nextStartTime g2)%float = true).
Proof.
  apply (playAudio_cursor_schedule Sample.connected
           [Gemini.Call 0; Gemini.Call 0.1; Gemini.Resume 0.5; Gemini.Resume 0.25]%float
           [Gemini.Call 0.2; Gemini.Resume 0.04]%float 0.3%float 0.04%float).
  - reflexivity.
  - repeat constructor.
  - repeat constructor.
  - reflexivity.
  - reflexivity.
Defined.

(** ** The logs only grow *)

Section AppendOnly.

Variable E : Env.
Hypothesis frame : showConfirmation_frame E.

Lemma handleStartSession_logs o s :
  logs (handleStartSession E o s) = logs s.
Proof.
  unfold handleStartSession.
  destruct o as [sr webkit gthrows rthrows [|m|m|m|m] sthrows];
    destruct sr, webkit, gthrows, rthrows, sthrows; simpl; try reflexivity;
    destruct (speechRef s); reflexivity.
Qed.

Lemma onresult_logs results s :
  logs (Speech.onresult speechCallbacks results s) = logs s.
Proof.
  unfold Speech.onresult.
  destruct (Speech.collect results "" "") as [interim final].
  destruct (JS.truthy_string final), (JS.truthy_string interim); reflexivity.
Qed.

Lemma perform_appends op s :
  exists appended, logs (perform E op s) = logs s ++ appended.
Proof using frame.
  destruct op; cbn [perform].
  - rewrite onSuggestions_logs. destruct (suggestionCtxRef s).
    + eexists; reflexivity.
    + exists []; now rewrite app_nil_r.
  - eexists. apply onConfirmedWord_logs, frame.
  - rewrite handleManualSelect_logs. destruct (suggestionCtx s).
    + eexists; reflexivity.
    + exists []; now rewrite app_nil_r.
  - exists []. rewrite app_nil_r. unfold handleSkip, handleSkip_with.
    destruct (suggestionCtx s); reflexivity.
  - exists []. rewrite app_nil_r. apply handleStartSession_logs.
  - rewrite handleStopSession_logs. destruct (suggestionCtx s).
    + eexists; reflexivity.
    + exists []; now rewrite app_nil_r.
  - exists []; now rewrite app_nil_r.
  - exists []; now rewrite app_nil_r.
  - exists []; now rewrite app_nil_r.
  - exists []. rewrite app_nil_r. apply onresult_logs.
  - exists []; now rewrite app_nil_r.
Qed.

Lemma performAll_appends ops : forall s,
  exists appended, logs (performAll E ops s) = logs s ++ appended.
Proof using frame.
  induction ops as [|op ops IH]; intros s.
  - exists []. now rewrite app_nil_r.
  - destruct (IH (perform E op s)) as [k2 H2].
    destruct (perform_appends op s) as [k1 H1].
    exists (k1 ++ k2).
    change (performAll E (op :: ops) s) with (performAll E ops (perform E op s)).
    rewrite H2, H1. now rewrite <- app_assoc.
Qed.

End AppendOnly.

(** The mount effect is the one place that writes the list as a whole: it
    installs what the local store returned. *)
Lemma loadSavedLogs_replaces savedLogs s :
  logs (loadSavedLogs savedLogs s) = savedLogs.
Proof. reflexivity. Qed.

(** C6: whatever operations the application performs, in whatever order
    (suggestion arrival, voice confirmation, manual click, skip, session
    start, session stop, and the remaining callbacks and renders), the logs
    list afterwards is the list before with entries added at the end, or the
    same list: every entry present before is still there afterwards, at the
    same position and with the same content. *)
Theorem logs_append_only (E : Env) (ops : list Operation) (s : State) :
  showConfirmation_frame E ->
  (exists appended, logs (performAll E ops s) = logs s ++ appended) /\
  (forall (i : nat) (e : WordLog.t),
     logs s !! i = Some e -> logs (performAll E ops s) !! i = Some e).
Proof.
  intros frame.
  destruct (performAll_appends E frame ops s) as [appended H].
  split; [exists appended; exact H|].
  intros i e Hi. rewrite H. now apply lookup_app_l_Some.
Qed.

Lemma logs_append_only_witness :
  let ops :=
    [ SessionStart Sample.supported;
      SuggestionArrival ["dog"; "cat"; "fox"] "Animals"; Render;
      SuggestionArrival ["car"; "bus"; "van"] "Vehicles"; Render;
      ManualClick "bus" 1; Render;
      SuggestionArrival ["tea"; "milk"; "juice"] "Drinks"; Render;
      Skip; Render;
      VoiceConfirmation "chair"; Render;
      SessionStop ] in
  (exists appended,
     logs (performAll Sample.env ops (Sample.resolved)) =
     logs (Sample.resolved) ++ appended) /\
  (forall (i : nat) (e : WordLog.t),
     logs (Sample.resolved) !! i = Some e ->
     logs (performAll Sample.env ops (Sample.resolved)) !! i = Some e).
Proof.
  intros ops. apply (logs_append_only Sample.env ops (Sample.resolved)).
  exact sample_frame.
Defined.

(** ** Starting a session and the transcript *)

Section Transcript.

Variable E : Env.

(** Whatever the recognizer does (absent, throwing at construction, throwing
    at start), a session whose live client constructs and connects is
    started, with no error shown. *)
Lemma handleStartSession_starts o s :
  geminiCtorThrows o = false -> connectOutcome o = Gemini.Connected ->
  isRecording (handleStartSession E o s) = true /\
  error (handleStartSession E o s) = None /\
  finalTranscript (handleStartSession E o s) = "".
Proof.
  unfold handleStartSession.
  destruct o as [sr webkit gthrows rthrows c sthrows]; simpl.
  intros -> ->.
  destruct sr, webkit, rthrows, sthrows; simpl; try (repeat split; reflexivity);
    destruct (speechRef s); repeat split; reflexivity.
Qed.

(** An error event of the recognizer changes no cell of the component. *)
Lemma recognizer_error_is_silent err sp s :
  snd (Speech.onerror speechCallbacks err sp s) = s.
Proof. unfold Speech.onerror. destruct (String.eqb err "not-allowed"); reflexivity. Qed.

(** The callback the component hands over for hosted transcription appends
    what it is given. *)
Lemma onTranscriptUpdate_appends text s :
  finalTranscript (onTranscriptUpdate text s) = finalTranscript s +:+ text.
Proof. reflexivity. Qed.

End Transcript.

(** [handleMessage] never calls [props.onTranscriptUpdate]: replacing that
    callback changes nothing of what a message does. *)
Lemma handleMessage_ignores_onTranscriptUpdate {St : Type}
    (props : Gemini.GeminiServiceProps St) (f : string -> St -> St)
    (currentTime : float) (message : Gemini.LiveServerMessage) (g : Gemini.t) (st : St) :
  Gemini.handleMessage
    {| Gemini.onSuggestions := Gemini.onSuggestions props;
       Gemini.onConfirmedWord := Gemini.onConfirmedWord props;
       Gemini.onTranscriptUpdate := f;
       Gemini.onError := Gemini.onError props |} currentTime message g st =
  Gemini.handleMessage props currentTime message g st.
Proof.
  unfold Gemini.handleMessage. destruct (Gemini.toolCall message) as [calls|]; [|reflexivity].
  assert (Hfold : forall acc,
    fold_left (fun acc fc =>
      Gemini.handleFunctionCall
        {| Gemini.onSuggestions := Gemini.onSuggestions props;
           Gemini.onConfirmedWord := Gemini.onConfirmedWord props;
           Gemini.onTranscriptUpdate := f;
           Gemini.onError := Gemini.onError props |} fc acc) calls acc =
    fold_left (fun acc fc => Gemini.handleFunctionCall props fc acc) calls acc).
  { induction calls as [|fc calls IH]; intros acc; simpl; [reflexivity|].
    rewrite IH. reflexivity. }
  rewrite Hfold. reflexivity.
Qed.

(** C7 (the code departs from it): with the recognizer unsupported the
    session does start and shows no error, but the hosted source appends
    nothing: a message of the live session that carries transcript text and
    no tool call leaves the transcript as it was, whatever the text. *)
Theorem hosted_transcript_not_appended :
  isRecording Sample.listening = true /\
  error Sample.listening = None /\
  speechRef Sample.listening = None /\
  finalTranscript (onmessage Sample.env 0 Sample.transcribed Sample.listening) = "" /\
  (forall (E : Env) (currentTime : float) (audio : option string) (text : string) (s : State),
     finalTranscript
       (onmessage E currentTime
          {| Gemini.inlineData := audio; Gemini.text := Some text;
             Gemini.toolCall := None |} s) = finalTranscript s).
Proof.
  repeat split.
  intros E currentTime audio text s. unfold onmessage, Gemini.handleMessage_raising.
  destruct (geminiRef s); reflexivity.
Qed.

(** * Further properties of the code *)

(** ** The recognition wrapper *)

Lemma append_assoc (a b c : string) : (a +:+ b) +:+ c = a +:+ (b +:+ c).
Proof.
  induction a as [|x a IH]; [reflexivity|].
  change (String x ((a +:+ b) +:+ c) = String x (a +:+ (b +:+ c))). now f_equal.
Qed.

Lemma append_empty_r (a : string) : a +:+ "" = a.
Proof.
  induction a as [|x a IH]; [reflexivity|].
  change (String x (a +:+ "") = String x a). now f_equal.
Qed.

Section Recognition.

Context {St : Type} (cb : Speech.Callbacks St).

Lemma joined_app l1 l2 : joined (l1 ++ l2) = joined l1 +:+ joined l2.
Proof.
  induction l1 as [|x l1 IH]; [reflexivity|].
  change (x +:+ joined (l1 ++ l2) = (x +:+ joined l1) +:+ joined l2).
  now rewrite IH, append_assoc.
Qed.

Lemma collect_accumulates results : forall interim final,
  Speech.collect results interim final =
  (interim +:+ interimText results, final +:+ finalText results).
Proof.
  induction results as [|r results IH]; intros interim final.
  - unfold interimText, finalText, joined; simpl.
    now rewrite !append_empty_r.
  - cbn [Speech.collect]. unfold interimText, finalText in *.
    cbn [List.filter]. destruct (Speech.isFinal r); cbn [negb fmap list_fmap];
      rewrite IH; f_equal;
      change (joined (?x :: ?l)) with (x +:+ joined l);
      now rewrite append_assoc.
Qed.

End Recognition.

(** One recognition event reports at most twice: first the transcripts of
    its final results, put together in order and flagged final, then the
    transcripts of its interim results, flagged interim; a text that comes
    out empty is not reported. *)
Theorem onresult_reports_final_then_interim {St : Type} (cb : Speech.Callbacks St)
    (results : list Speech.Result) (st : St) :
  Speech.onresult cb results st =
  let st1 := if String.eqb (finalText results) "" then st
             else Speech.onResult cb (finalText results) true st in
  if String.eqb (interimText results) "" then st1
  else Speech.onResult cb (interimText results) false st1.
Proof.
  unfold Speech.onresult. rewrite collect_accumulates.
  change ("" +:+ interimText results) with (interimText results).
  change ("" +:+ finalText results) with (finalText results).
  unfold JS.truthy_string. cbv zeta.
  destruct (String.eqb (finalText results) ""), (String.eqb (interimText results) "");
    reflexivity.
Qed.

(** The restart policy of the wrapper: when recognition ends by itself
    after a successful [start()] of an idle service, the service goes on
    listening; after
    [stop()], after a ['not-allowed'] error, or when [recognition.start()]
    threw, it ends up not listening. *)
Theorem onend_restarts_only_while_wanted {St : Type} (cb : Speech.Callbacks St)
    (sp : Speech.t) (st : St) :
  Speech.recognition sp = true ->
  (Speech.isListening sp = false ->
   Speech.isListening (Speech.onend (Speech.start false sp)) = true) /\
  Speech.isListening (Speech.onend (Speech.stop sp)) = false /\
  Speech.isListening
    (Speech.onend (fst (Speech.onerror cb "not-allowed" sp st))) = false /\
  (Speech.isListening sp = false ->
   Speech.isListening (Speech.onend (Speech.start true sp)) = false).
Proof.
  destruct sp as [r l sr]; simpl. intros ->. repeat split.
  - intros ->. reflexivity.
  - intros ->. unfold Speech.start, Speech.onend; simpl. destruct sr; reflexivity.
Qed.

Lemma onend_restarts_only_while_wanted_witness :
  let sp := {| Speech.recognition := true; Speech.isListening := false;
               Speech.shouldRestart := false |} in
  Speech.isListening (Speech.onend (Speech.start false sp)) = true /\
  Speech.isListening (Speech.onend (Speech.stop (Speech.start false sp))) = false /\
  Speech.isListening (Speech.onend (Speech.start true sp)) = false.
Proof.
  intros sp.
  destruct (onend_restarts_only_while_wanted speechCallbacks sp App.init eq_refl)
    as (Hrun & _ & _ & Hthrew).
  destruct (onend_restarts_only_while_wanted speechCallbacks (Speech.start false sp)
              App.init eq_refl) as (_ & Hstop & _).
  split; [apply Hrun; reflexivity|]. split; [exact Hstop | apply Hthrew; reflexivity].
Defined.

(** ** The transcript built from recognition results *)

Section Dictation.

Variable E : Env.

Lemma onresult_finalTranscript results s :
  finalTranscript (Speech.onresult speechCallbacks results s) =
  if JS.truthy_string (finalText results)
  then sentence (finalTranscript s) (finalText results)
  else finalTranscript s.
Proof.
  unfold Speech.onresult. rewrite collect_accumulates.
  change ("" +:+ interimText results) with (interimText results).
  change ("" +:+ finalText results) with (finalText results).
  cbv zeta.
  destruct (JS.truthy_string (finalText results)),
           (JS.truthy_string (interimText results)); reflexivity.
Qed.

Lemma recognition_events_fold events : forall s,
  finalTranscript (performAll E (RecognitionResult <$> events) s) =
  fold_left sentence (sentences events) (finalTranscript s).
Proof.
  induction events as [|results events IH]; intros s; [reflexivity|].
  change (performAll E (RecognitionResult <$> results :: events) s)
    with (performAll E (RecognitionResult <$> events)
            (Speech.onresult speechCallbacks results s)).
  rewrite IH, onresult_finalTranscript. unfold sentences. cbn [fmap list_fmap List.filter].
  destruct (JS.truthy_string (finalText results)); reflexivity.
Qed.

Lemma truthy_append p q : JS.truthy_string p = true -> JS.truthy_string (p +:+ q) = true.
Proof. destruct p; [discriminate | reflexivity]. Qed.

Lemma sentences_after l : forall p,
  JS.truthy_string p = true ->
  fold_left sentence l p = p +:+ joined ((fun x => ". " +:+ x) <$> l).
Proof.
  induction l as [|x l IH]; intros p Hp.
  - simpl. now rewrite append_empty_r.
  - cbn [fold_left]. unfold sentence at 2. rewrite Hp.
    rewrite IH by now apply truthy_append.
    cbn [fmap list_fmap]. change (joined (?a :: ?b)) with (a +:+ joined b).
    now rewrite !append_assoc.
Qed.

Lemma concat_after x l :
  String.concat ". " (x :: l) = x +:+ joined ((fun x => ". " +:+ x) <$> l).
Proof.
  revert x. induction l as [|y l IH]; intros x.
  - simpl. now rewrite append_empty_r.
  - change (String.concat ". " (x :: y :: l))
      with (x +:+ ". " +:+ String.concat ". " (y :: l)).
    rewrite IH. cbn [fmap list_fmap].
    change (joined (?a :: ?b)) with (a +:+ joined b).
    now rewrite !append_assoc.
Qed.

Lemma sentences_joined l :
  Forall (fun x => JS.truthy_string x = true) l ->
  fold_left sentence l "" = String.concat ". " l.
Proof.
  destruct l as [|x l]; [reflexivity|].
  intros H. inversion H as [|? ? Hx _]; subst.
  cbn [fold_left]. unfold sentence at 2. cbn [JS.truthy_string String.eqb negb].
  rewrite sentences_after by exact Hx. now rewrite concat_after.
Qed.

End Dictation.

(** Dictation into an empty transcript: after any run of recognition
    events the final transcript is the non-empty final texts of the events,
    in order, joined by a full stop and a space; events without final text
    contribute nothing and no separator. *)
Theorem dictation_joins_sentences (E : Env) (events : list (list Speech.Result))
    (s : State) :
  finalTranscript s = "" ->
  finalTranscript (performAll E (RecognitionResult <$> events) s) =
  String.concat ". " (sentences events).
Proof.
  intros Hempty. rewrite recognition_events_fold, Hempty.
  apply sentences_joined. unfold sentences.
  apply List.Forall_forall. intros x Hx. apply filter_In in Hx. tauto.
Qed.

Lemma dictation_joins_sentences_witness :
  finalTranscript
    (performAll Sample.env (RecognitionResult <$> Scenario.events) Scenario.dictating) =
  "I want the thing. you sit on".
Proof.
  apply (dictation_joins_sentences Sample.env Scenario.events Scenario.dictating).
  reflexivity.
Defined.

(** ** Starting a session: what can go wrong *)

(** On-device recognition after a session start.  Starting from a state
    without a speech service (the initial one, or after a stop), when the
    live client constructs: the recognizer is listening exactly when
    [webkitSpeechRecognition] is in the window, its constructor does not
    throw and [recognition.start()] does not throw.  The unprefixed
    [SpeechRecognition] plays no part: a browser offering only that one gets
    a service that never listens. *)
Theorem recognizer_listens_iff_webkit (E : Env) (o : StartOutcome) (s : State) :
  speechRef s = None -> geminiCtorThrows o = false ->
  match speechRef (handleStartSession E o s) with
  | Some sp => Speech.isListening sp
  | None => false
  end =
  window_webkitSpeechRecognition o && negb (recognitionCtorThrows o)
  && negb (recognitionStartThrows o).
Proof.
  unfold handleStartSession.
  destruct o as [sr webkit gthrows rthrows c sthrows]; simpl.
  intros Hsp ->.
  destruct sr, webkit, rthrows, sthrows, c; cbn; rewrite ?Hsp; cbn; rewrite ?Hsp;
    reflexivity.
Qed.

Lemma recognizer_listens_iff_webkit_witness :
  match speechRef
          (handleStartSession Sample.env
             {| window_SpeechRecognition := true;
                window_webkitSpeechRecognition := false;
                geminiCtorThrows := false;
                recognitionCtorThrows := false;
                connectOutcome := Gemini.Connected;
                recognitionStartThrows := false |} App.init) with
  | Some sp => Speech.isListening sp
  | None => false
  end = false.
Proof.
  apply (recognizer_listens_iff_webkit Sample.env
           {| window_SpeechRecognition := true;
              window_webkitSpeechRecognition := false;
              geminiCtorThrows := false;
              recognitionCtorThrows := false;
              connectOutcome := Gemini.Connected;
              recognitionStartThrows := false |} App.init).
  - reflexivity.
  - reflexivity.
Defined.

(** Failures while starting.  When constructing the live client throws,
    the error shown is "Failed to start session." and neither the recording
    flag nor the two service refs change.  Otherwise the recording flag is
    set whatever [connect] did: a failed connect (audio context, microphone
    or live session) shows the failure's message, or "Failed to connect to
    Gemini Live" when that message is empty, and the component still
    counts as recording. *)
Theorem start_failures (E : Env) (o : StartOutcome) (s : State) :
  (geminiCtorThrows o = true ->
   error (handleStartSession E o s) = Some "Failed to start session." /\
   isRecording (handleStartSession E o s) = isRecording s /\
   geminiRef (handleStartSession E o s) = geminiRef s /\
   speechRef (handleStartSession E o s) = speechRef s) /\
  (geminiCtorThrows o = false ->
   isRecording (handleStartSession E o s) = true /\
   error (handleStartSession E o s) = reported (connectOutcome o) /\
   exists g, geminiRef (handleStartSession E o s) = Some g /\
             (Gemini.session g = true <-> connectOutcome o = Gemini.Connected)).
Proof.
  unfold handleStartSession.
  destruct o as [sr webkit gthrows rthrows c sthrows]; simpl. split; intros ->.
  - repeat split; reflexivity.
  - destruct sr, webkit, rthrows, sthrows, c as [|m|m|m|m]; simpl;
      try destruct (speechRef s); simpl; unfold JS.truthy_string;
      try destruct (String.eqb m ""); simpl;
      (split; [reflexivity|]); (split; [reflexivity|]);
      eexists; (split; [reflexivity|]); simpl; split; congruence.
Qed.

Lemma start_failures_witness :
  (error (handleStartSession Sample.env Scenario.broken App.init) =
     Some "Failed to start session." /\
   isRecording (handleStartSession Sample.env Scenario.broken App.init) = false) /\
  (isRecording (handleStartSession Sample.env Scenario.failing App.init) = true /\
   error (handleStartSession Sample.env Scenario.failing App.init) =
     Some "Permission denied").
Proof.
  destruct (start_failures Sample.env Scenario.broken App.init) as [Hbroken _].
  destruct (start_failures Sample.env Scenario.failing App.init) as [_ Hfailing].
  split.
  - destruct (Hbroken eq_refl) as (He & Hr & _). split; [exact He | exact Hr].
  - destruct (Hfailing eq_refl) as (Hr & He & _). split; [exact Hr | exact He].
Defined.

(** ** The live client: connection, teardown and tool calls *)

Section Client.

Context {St : Type} (props : Gemini.GeminiServiceProps St).



End Client.


(** With callbacks that return, the loop that lets exceptions through is
    the plain one. *)
Lemma handleFunctionCalls_returning {St : Type} (props : Gemini.GeminiServiceProps St)
    (calls : list Gemini.FunctionCall) : forall st responses,
  Gemini.handleFunctionCalls (Gemini.returning props) calls st responses =
  let r := fold_left (fun acc fc => Gemini.handleFunctionCall props fc acc) calls
             (st, responses) in
  (Gemini.Returns (fst r), snd r).
Proof.
  induction calls as [|fc calls IH]; intros st responses; [reflexivity|].
  cbn [Gemini.handleFunctionCalls fold_left Gemini.handleFunctionCall Gemini.returning
       Gemini.onSuggestions_ends Gemini.onConfirmedWord_ends].
  destruct (String.eqb (Gemini.name fc) "provideSuggestions"); [apply IH|].
  destruct (String.eqb (Gemini.name fc) "confirmSelection"); apply IH.
Qed.

Lemma handleMessage_raising_returning {St : Type} (props : Gemini.GeminiServiceProps St)
    (currentTime : float) (message : Gemini.LiveServerMessage) (g : Gemini.t) (st : St) :
  Gemini.handleMessage_raising (Gemini.returning props) currentTime message g st =
  let r := Gemini.handleMessage props currentTime message g st in
  (fst (fst r), Gemini.Returns (snd (fst r)), snd r).
Proof.
  unfold Gemini.handleMessage_raising, Gemini.handleMessage.
  destruct (Gemini.toolCall message) as [calls|]; [|reflexivity].
  rewrite handleFunctionCalls_returning. cbv zeta.
  destruct (fold_left _ calls (st, [])) as [st1 responses]. reflexivity.
Qed.

Section Dispatch.

Variable E : Env.

Lemma callOps_cons fc calls :
  callOps (fc :: calls) =
  (if String.eqb (Gemini.name fc) "provideSuggestions"
   then [SuggestionArrival (Gemini.words (Gemini.args fc)) (Gemini.category (Gemini.args fc))]
   else if String.eqb (Gemini.name fc) "confirmSelection"
   then [VoiceConfirmation (Gemini.word (Gemini.args fc))]
   else []) ++ callOps calls.
Proof. reflexivity. Qed.

Lemma performAll_app ops1 ops2 s :
  performAll E (ops1 ++ ops2) s = performAll E ops2 (performAll E ops1 s).
Proof. unfold performAll. apply fold_left_app. Qed.

(** The loop with the component's callbacks: it gets as far as the first
    [confirmSelection], whose callback raises. *)
Lemma handleFunctionCalls_dispatch calls : forall s responses,
  fst (Gemini.handleFunctionCalls (geminiCallbacks E) calls s responses) =
    (if confirms calls then Gemini.Raises else Gemini.Returns)
      (performAll E (callOps (upToConfirmation calls)) s) /\
  (confirms calls = false ->
   snd (Gemini.handleFunctionCalls (geminiCallbacks E) calls s responses) =
     responses ++ (responseTo <$> List.filter recognised calls)).
Proof.
  induction calls as [|fc calls IH]; intros s responses.
  - split; [reflexivity|]. intros _. cbn. now rewrite app_nil_r.
  - assert (Hresp : forall l : list Gemini.FunctionCall,
              responseTo <$> (if recognised fc then fc :: l else l) =
              (if recognised fc then [responseTo fc] else []) ++ (responseTo <$> l)).
    { intros l. destruct (recognised fc); reflexivity. }
    cbn [Gemini.handleFunctionCalls upToConfirmation confirms existsb List.filter
         geminiCallbacks Gemini.onSuggestions_ends Gemini.onConfirmedWord_ends].
    fold (confirms calls). rewrite Hresp. unfold recognised, responseTo.
    destruct (String.eqb (Gemini.name fc) "provideSuggestions") eqn:Hp.
    + assert (Hc : String.eqb (Gemini.name fc) "confirmSelection" = false).
      { apply String.eqb_eq in Hp. rewrite Hp. reflexivity. }
      rewrite Hc, callOps_cons, Hp. cbn [orb]. rewrite performAll_app.
      destruct (IH (onSuggestions E (Gemini.words (Gemini.args fc))
                      (Gemini.category (Gemini.args fc)) s)
                  (responses ++ [{| Gemini.fr_id := Gemini.fc_id fc;
                                    Gemini.fr_name := Gemini.name fc;
                                    Gemini.result := "Suggestions displayed to user." |}]))
        as [IH1 IH2].
      split; [exact IH1|]. intros Hno. rewrite (IH2 Hno).
      now rewrite <- app_assoc.
    + destruct (String.eqb (Gemini.name fc) "confirmSelection") eqn:Hc.
      * rewrite callOps_cons, Hp, Hc. cbn [orb fst snd]. split; [reflexivity|discriminate].
      * rewrite callOps_cons, Hp, Hc. cbn [orb app]. apply IH.
Qed.

End Dispatch.

(** Dispatch: of the function calls of a message, the component performs
    the suggestion arrivals, in the order received and with no render in
    between, up to the first voice confirmation.  That one's updates are
    made and then [showConfirmation], bound nowhere, raises: the calls after
    it are never performed and no tool response is sent for the message,
    not even for the calls performed.  A message without a voice
    confirmation is performed whole and every call the client knows is
    answered. *)
Theorem onmessage_performs_calls (E : Env) (currentTime : float)
    (message : Gemini.LiveServerMessage) (g : Gemini.t) (s : State) :
  let calls := default [] (Gemini.toolCall message) in
  let handled := Gemini.handleMessage_raising (geminiCallbacks E) currentTime message g s in
  snd (fst handled) =
    (if confirms calls then Gemini.Raises else Gemini.Returns)
      (performAll E (callOps (upToConfirmation calls)) s) /\
  snd handled =
    (if confirms calls then [] else responseTo <$> List.filter recognised calls).
Proof.
  unfold Gemini.handleMessage_raising.
  destruct (Gemini.toolCall message) as [calls|]; [|split; reflexivity].
  change (default [] (Some calls)) with calls. cbv zeta.
  destruct (handleFunctionCalls_dispatch E calls s []) as [H1 H2].
  destruct (Gemini.handleFunctionCalls (geminiCallbacks E) calls s []) as [c responses].
  cbn [fst snd] in H1, H2. subst c.
  destruct (confirms calls); cbn [fst snd]; (split; [reflexivity|]).
  - reflexivity.
  - now apply H2.
Qed.

(** Teardown: whatever [connect] did (success, or failure at any stage),
    [disconnect] leaves no audio context, processor, source or stream
    behind, keeps the cursor and the session handle (it does not close the
    session), and doing it again changes nothing. *)
Theorem disconnect_releases {St : Type} (props : Gemini.GeminiServiceProps St)
    (o : Gemini.ConnectOutcome) (g : Gemini.t) (st : St) :
  let g' := Gemini.disconnect (fst (Gemini.connect props o g st)) in
  Gemini.inputAudioContext g' = false /\
  Gemini.outputAudioContext g' = false /\
  Gemini.scriptProcessor g' = false /\
  Gemini.mediaStreamSource g' = false /\
  Gemini.currentStream g' = false /\
  Gemini.nextStartTime g' = Gemini.nextStartTime g /\
  Gemini.session g' = Gemini.session (fst (Gemini.connect props o g st)) /\
  Gemini.disconnect g' = g'.
Proof. destruct o; repeat split; reflexivity. Qed.

(** After [disconnect] nothing is played: whole [playAudio] calls, calls
    suspended at the [await] and their resumptions, and messages carrying
    audio all leave the service as it is. *)
Theorem no_audio_after_disconnect {St : Type} (props : Gemini.GeminiServiceProps St)
    (g : Gemini.t) (events : list Gemini.AudioEvent)
    (currentTime : float) (decoded : option float)
    (message : Gemini.LiveServerMessage) (st : St) :
  Gemini.audio_run events (Gemini.disconnect g) = Gemini.disconnect g /\
  Gemini.playAudio currentTime decoded (Gemini.disconnect g) = Gemini.disconnect g /\
  fst (fst (Gemini.handleMessage props currentTime message (Gemini.disconnect g) st)) =
    Gemini.disconnect g.
Proof.
  split; [|split].
  - induction events as [|[t|d] events IH]; [reflexivity| |]; exact IH.
  - reflexivity.
  - unfold Gemini.handleMessage.
    destruct (Gemini.inlineData message) as [audio|];
      [rewrite andb_false_r|];
      destruct (Gemini.toolCall message) as [calls|]; try reflexivity;
      destruct (fold_left _ calls (st, [])); reflexivity.
Qed.

(** ** Bookkeeping across operations *)

Section Bookkeeping.

Variable E : Env.
Hypothesis inert : showConfirmation_inert E.

(** A property of states that survives [addLog], a reading of the clock and
    every quiet step survives every operation. *)
Variable P : State -> Prop.
Hypothesis P_addLog :
  forall word category weight method s, P s -> P (addLog E word category weight method s).
Hypothesis P_draw_now : forall s, P s -> P (draw_now s).
Hypothesis P_quiet : forall s s', quiet s s' -> P s -> P s'.

Lemma forEach_keeps category words : forall idx s,
  P s ->
  P (JS.forEach_from
       (fun word idx =>
          addLog E word category (JS.or_number (weights !! idx) 0.1%float) implicit_split)
       idx words s).
Proof using P_addLog.
  induction words as [|w words IH]; intros idx s HP; [exact HP|].
  simpl. apply IH, P_addLog, HP.
Qed.

Lemma handleStartSession_quiet o s : quiet s (handleStartSession E o s).
Proof.
  unfold handleStartSession, quiet.
  destruct o as [sr webkit gthrows rthrows [|m|m|m|m] sthrows];
    destruct sr, webkit, gthrows, rthrows, sthrows; simpl;
    try (repeat split; reflexivity);
    destruct (speechRef s); repeat split; reflexivity.
Qed.

Lemma onresult_quiet results s : quiet s (Speech.onresult speechCallbacks results s).
Proof.
  unfold Speech.onresult, quiet.
  destruct (Speech.collect results "" "") as [interim final].
  destruct (JS.truthy_string final), (JS.truthy_string interim); repeat split; reflexivity.
Qed.

Lemma perform_keeps op s : P s -> P (perform E op s).
Proof using inert P_addLog P_draw_now P_quiet.
  intros HP. destruct op; cbn [perform].
  - unfold onSuggestions.
    eapply P_quiet; [|apply P_draw_now].
    + repeat split; reflexivity.
    + destruct (suggestionCtxRef s); [apply forEach_keeps|]; exact HP.
  - unfold onConfirmedWord. rewrite inert.
    eapply P_quiet; [|apply P_addLog, HP]. repeat split; reflexivity.
  - unfold handleManualSelect, handleManualSelect_with.
    destruct (suggestionCtx s); [|exact HP].
    eapply P_quiet; [|apply P_addLog, HP]. repeat split; reflexivity.
  - unfold handleSkip, handleSkip_with. destruct (suggestionCtx s); [|exact HP].
    eapply P_quiet; [|exact HP]. repeat split; reflexivity.
  - eapply P_quiet; [apply handleStartSession_quiet | exact HP].
  - unfold handleStopSession. rewrite handleStopSession_with_rest.
    unfold handleStopSession_rest.
    set (s1 := set_geminiRef None s).
    assert (H1 : P s1).
    { subst s1. eapply P_quiet; [|exact HP]. repeat split; reflexivity. }
    set (s2 := match speechRef s1 with Some _ => _ | None => s1 end).
    assert (H2 : P s2).
    { subst s2. destruct (speechRef s1); [|exact H1].
      eapply P_quiet; [|exact H1]. repeat split; reflexivity. }
    assert (H3 : P (setIsRecording false s2)).
    { eapply P_quiet; [|exact H2]. repeat split; reflexivity. }
    destruct (suggestionCtx s); [|exact H3].
    eapply P_quiet; [|apply forEach_keeps, H3]. repeat split; reflexivity.
  - eapply P_quiet; [|exact HP]. repeat split; reflexivity.
  - eapply P_quiet; [|exact HP]. repeat split; reflexivity.
  - eapply P_quiet; [|exact HP]. repeat split; reflexivity.
  - eapply P_quiet; [apply onresult_quiet | exact HP].
  - eapply P_quiet; [|exact HP]. repeat split; reflexivity.
Qed.

Lemma performAll_keeps ops : forall s, P s -> P (performAll E ops s).
Proof using inert P_addLog P_draw_now P_quiet.
  induction ops as [|op ops IH]; intros s HP; [exact HP|].
  change (performAll E (op :: ops) s) with (performAll E ops (perform E op s)).
  apply IH, perform_keeps, HP.
Qed.

End Bookkeeping.

Section Stores.

Variable E : Env.
Hypothesis inert : showConfirmation_inert E.

Lemma cloudDocs_app u l1 l2 : cloudDocs u (l1 ++ l2) = cloudDocs u l1 ++ cloudDocs u l2.
Proof. destruct u; simpl; [apply fmap_app | reflexivity]. Qed.

Lemma performAll_stores ops s :
  exists new,
    logs (performAll E ops s) = logs s ++ new /\
    dbWrites (performAll E ops s) = dbWrites s ++ new /\
    cloudWrites (performAll E ops s) = cloudWrites s ++ cloudDocs (user E) new.
Proof using inert.
  apply (performAll_keeps E inert
           (fun s' => exists new,
              logs s' = logs s ++ new /\
              dbWrites s' = dbWrites s ++ new /\
              cloudWrites s' = cloudWrites s ++ cloudDocs (user E) new)).
  - intros word category weight method s' (new & Hl & Hd & Hc).
    destruct (addLog_writes E word category weight method s') as [Hd' Hc'].
    exists (new ++ [ {| WordLog.id := randomUUID E (uuidCalls s');
                        WordLog.word := word;
                        WordLog.category := category;
                        WordLog.weight := weight;
                        WordLog.timestamp := dateNow E (nowCalls s');
                        WordLog.selectionMethod := method |} ]).
    rewrite addLog_logs, Hd', Hc', Hl, Hd, Hc, cloudDocs_app, !app_assoc.
    split; [reflexivity|]. split; [reflexivity|].
    destruct (user E); cbn; [reflexivity | now rewrite !app_nil_r].
  - intros s' H. exact H.
  - intros s1 s2 (Hl & Hd & Hc & _) (new & H1 & H2 & H3).
    exists new. rewrite Hl, Hd, Hc. repeat split; assumption.
  - exists []. destruct (user E); cbn; rewrite !app_nil_r; repeat split; reflexivity.
Qed.


End Stores.

(** Every entry added to the logs list is also sent to the local store and,
    when a user is signed in, to the cloud under
    [users/<uid>/logs/<entry id>]: over any run of operations the three
    lists grow by the same entries in the same order (by none in the cloud
    without a user), and nothing else is ever written.  [showConfirmation]
    is taken to write the confirmation message only. *)
Theorem stores_receive_every_entry (E : Env) (ops : list Operation) (s : State) :
  showConfirmation_inert E ->
  exists new,
    logs (performAll E ops s) = logs s ++ new /\
    dbWrites (performAll E ops s) = dbWrites s ++ new /\
    cloudWrites (performAll E ops s) =
      cloudWrites s ++
      match user E with
      | Some u => (fun l => ("users/" +:+ uid u +:+ "/logs/" +:+ WordLog.id l, l)) <$> new
      | None => []
      end.
Proof. intros inert. exact (performAll_stores E inert ops s). Qed.

Lemma sample_inert : showConfirmation_inert Sample.env.
Proof. intros w s. destruct s; reflexivity. Qed.

Lemma stores_receive_every_entry_witness :
  exists new,
    logs (performAll Sample.env
            [SuggestionArrival ["car"; "bus"; "van"] "Vehicles"; Render; SessionStop]
            Sample.resolved) = logs Sample.resolved ++ new /\
    dbWrites (performAll Sample.env
                [SuggestionArrival ["car"; "bus"; "van"] "Vehicles"; Render; SessionStop]
                Sample.resolved) = dbWrites Sample.resolved ++ new /\
    cloudWrites (performAll Sample.env
                   [SuggestionArrival ["car"; "bus"; "van"] "Vehicles"; Render; SessionStop]
                   Sample.resolved) =
      cloudWrites Sample.resolved ++
      ((fun l => ("users/" +:+ "u1" +:+ "/logs/" +:+ WordLog.id l, l)) <$> new).
Proof.
  apply (stores_receive_every_entry Sample.env
           [SuggestionArrival ["car"; "bus"; "van"] "Vehicles"; Render; SessionStop]
           Sample.resolved).
  exact sample_inert.
Defined.






(** ** Order of the entries in time *)

Section Chronology.

Variable E : Env.
Hypothesis inert : showConfirmation_inert E.
Hypothesis clock : forall i j, i <= j -> (dateNow E i <= dateNow E j)%Z.



End Chronology.



(** ** Stopping and tapping: the render decides *)

Section Resolution.

Variable E : Env.




End Resolution.


(** A tap follows the render the button comes from.  From a render that
    showed the context [ctx] it logs one entry under that context's
    category and clears the cell, whatever the cell holds by then: a second
    tap before the next render logs a second entry.  From a render that
    showed no suggestion a tap changes nothing, and neither does a skip. *)
Theorem tap_follows_render (E : Env) (ctx : SuggestionContext.t) (s : State)
    (word word' : string) (index index' : nat) :
  handleManualSelect_with E None word index s = s /\
  handleSkip_with None s = s /\
  logs (handleManualSelect_with E (Some ctx) word index s) =
    logs s ++ [confirmedEntry E s word (SuggestionContext.category ctx) manual_click] /\
  suggestionCtx (handleManualSelect_with E (Some ctx) word index s) = None /\
  outcome <$>
    logs (handleManualSelect_with E (Some ctx) word' index'
            (handleManualSelect_with E (Some ctx) word index s)) =
    (outcome <$> logs s) ++
    [ (word, SuggestionContext.category ctx, 1.0%float, manual_click);
      (word', SuggestionContext.category ctx, 1.0%float, manual_click) ].
Proof.
  unfold handleManualSelect_with, handleSkip_with.
  repeat apply conj; try reflexivity.
  - cbn [logs setSuggestionCtx]. apply addLog_logs.
  - cbn [logs setSuggestionCtx]. rewrite addLog_logs.
    cbn [logs setSuggestionCtx]. rewrite addLog_logs, !fmap_app, <- app_assoc.
    reflexivity.
Qed.

(** ** A chunk and the call that brought it *)

Section Interleaving.

Import Gemini.

Lemma audio_run_open events : forall g,
  outputAudioContext (audio_run events g) = outputAudioContext g /\
  outputNode (audio_run events g) = outputNode g.
Proof.
  induction events as [|e events IH]; intros g; [split; reflexivity|].
  change (audio_run (e :: events) g) with (audio_run events (audio_step e g)).
  destruct (IH (audio_step e g)) as [-> ->].
  destruct e as [currentTime | duration]; cbn [audio_step].
  - unfold playAudio_sync.
    destruct (negb (outputAudioContext g) || negb (outputNode g)); split; reflexivity.
  - unfold playAudio_resume.
    destruct (outputAudioContext g) eqn:Hctx; cbn; rewrite ?Hctx; split; reflexivity.
Qed.

End Interleaving.

(** When other calls enter and resume while a chunk is being decoded, the
    chunk is started at the cursor as it stands when the decoding ends, and
    the cursor moves on by the binary64 sum.  That start is never before
    the clock reading of the chunk's own call, nor before the cursor that
    call found. *)
Theorem chunk_starts_after_its_call (g : Gemini.t) (between : list Gemini.AudioEvent)
    (currentTime duration : float) :
  Gemini.outputAudioContext g = true -> Gemini.outputNode g = true ->
  (0 <=? Gemini.nextStartTime g)%float = true -> (0 <=? currentTime)%float = true ->
  Forall nonnegative between ->
  let entered := Gemini.playAudio_sync currentTime g in
  let decoded := Gemini.audio_run between entered in
  let resumed := Gemini.playAudio_resume duration decoded in
  Gemini.nextStartTime entered = JS.Math_max (Gemini.nextStartTime g) currentTime /\
  Gemini.started resumed = (Gemini.nextStartTime decoded, duration) :: Gemini.started decoded /\
  Gemini.nextStartTime resumed = (Gemini.nextStartTime decoded + duration)%float /\
  (currentTime <=? Gemini.nextStartTime decoded)%float = true /\
  (Gemini.nextStartTime g <=? Gemini.nextStartTime decoded)%float = true.
Proof.
  intros Hctx Hnode Hc Ht Hbetween entered decoded resumed.
  assert (Hentered : Gemini.nextStartTime entered =
                     JS.Math_max (Gemini.nextStartTime g) currentTime).
  { subst entered. unfold Gemini.playAudio_sync. rewrite Hctx, Hnode. reflexivity. }
  assert (Hopen : Gemini.outputAudioContext decoded = true).
  { subst decoded. destruct (audio_run_open between entered) as [-> _].
    subst entered. unfold Gemini.playAudio_sync. rewrite Hctx, Hnode. exact Hctx. }
  destruct (Math_max_ge (Gemini.nextStartTime g) currentTime Hc Ht) as (Hm1 & Hm2 & Hm3).
  rewrite <- Hentered in Hm1, Hm2, Hm3.
  destruct (audio_run_monotone between entered Hm3 Hbetween) as [Hle _].
  fold decoded in Hle.
  split; [exact Hentered|].
  subst resumed. unfold Gemini.playAudio_resume. rewrite Hopen. cbn.
  repeat apply conj; try reflexivity.
  - exact (leb_trans _ _ _ Ht Hm2 Hle).
  - exact (leb_trans _ _ _ Hc Hm1 Hle).
Qed.

Lemma chunk_starts_after_its_call_witness :
  let between := [Gemini.Call 0.2; Gemini.Resume 0.5; Gemini.Call 0.25]%float in
  let entered := Gemini.playAudio_sync 0.1 Sample.connected in
  let decoded := Gemini.audio_run between entered in
  let resumed := Gemini.playAudio_resume 0.04 decoded in
  Gemini.nextStartTime entered = JS.Math_max (Gemini.nextStartTime Sample.connected) 0.1 /\
  Gemini.started resumed = (Gemini.nextStartTime decoded, 0.04%float) :: Gemini.started decoded /\
  Gemini.nextStartTime resumed = (Gemini.nextStartTime decoded + 0.04)%float /\
  (0.1 <=? Gemini.nextStartTime decoded)%float = true /\
  (Gemini.nextStartTime Sample.connected <=? Gemini.nextStartTime decoded)%float = true.
Proof.
  apply (chunk_starts_after_its_call Sample.connected
           [Gemini.Call 0.2; Gemini.Resume 0.5; Gemini.Call 0.25]%float 0.1%float 0.04%float).
  - reflexivity.
  - reflexivity.
  - reflexivity.
  - reflexivity.
  - repeat constructor.
Defined.

(** ** An instance of the general lemma on arrivals *)

Lemma arrivals_rendered_witness :
  outcome <$>
    logs (arrivals Sample.env
            [(["car"; "bus"; "van"], "Vehicles"); (["tea"; "milk"], "Drinks");
             (["red"; "blue"; "green"; "pink"], "Colours")]
            (Sample.showing Sample.animals)) =
  [ ("dog", "Animals", 0.5%float, implicit_split);
    ("cat", "Animals", 0.4%float, implicit_split);
    ("fox", "Animals", 0.1%float, implicit_split);
    ("car", "Vehicles", 0.5%float, implicit_split);
    ("bus", "Vehicles", 0.4%float, implicit_split);
    ("van", "Vehicles", 0.1%float, implicit_split);
    ("tea", "Drinks", 0.5%float, implicit_split);
    ("milk", "Drinks", 0.4%float, implicit_split) ].
Proof.
  apply (arrivals_rendered Sample.env
           [(["car"; "bus"; "van"], "Vehicles"); (["tea"; "milk"], "Drinks");
            (["red"; "blue"; "green"; "pink"], "Colours")]
           (Sample.showing Sample.animals) Sample.animals).
  - reflexivity.
  - reflexivity.
Defined.
